(** * Loyalty Drift Dashboard: the drift comparator of [app.js]

    A shallow embedding of [compareEvents] (as a function of two records,
    and as a computation on a heap that can throw), of the [DRIFT_FIELDS]
    table, of the Scenario 1 preset, of the renderers and of the "Check for
    Drift" click handler, with the properties of the comparison engine proved
    about them. *)

From Stdlib Require Import Ascii Floats.
From stdpp Require Import gmap strings list pretty.

(** ** JavaScript values *)

(** The scalars a decoded JSON object can hold.  A JavaScript number is an
    IEEE-754 binary64, which is what [float] is.  Strings are kept as their
    UTF-8 bytes. *)
Inductive value : Type :=
  | VNull
  | VBool (b : bool)
  | VNum (n : float)
  | VStr (s : string).

(** The result of a property read [o[field]]: [None] is [undefined]. *)
Definition jsval : Type := option value.

(** [a === b] on scalars: no conversion between types; numbers compare as
    IEEE-754 says (NaN differs from itself, the two zeros are equal). *)
Definition strictEqualsValue (a b : value) : bool :=
  match a, b with
  | VNull, VNull => true
  | VBool x, VBool y => Bool.eqb x y
  | VNum x, VNum y => PrimFloat.eqb x y
  | VStr x, VStr y => String.eqb x y
  | _, _ => false
  end.

Definition strictEquals (a b : jsval) : bool :=
  match a, b with
  | None, None => true
  | Some x, Some y => strictEqualsValue x y
  | _, _ => false
  end.

(** [Number::toString] is the engine's shortest round-trip printer; the
    comparator only splices its result into messages, so it is an interface
    of the embedding. *)
Class NumberToString := numberToString : float -> string.

(** The instance used to run the examples: the decimal numeral of an
    integer-valued double below 2^53, which is what every engine prints for
    it, and the names of the special values. *)
Definition integerNumeral (n : float) : string :=
  match Prim2SF n with
  | S754_nan => "NaN"
  | S754_infinity false => "Infinity"
  | S754_infinity true => "-Infinity"
  | S754_zero _ => "0"
  | S754_finite s m e =>
      let z := Z.shiftl (Z.pos m) e in
      pretty (if s then (- z)%Z else z)
  end.

(** A flat record, as [JSON.parse] builds it from an object of scalars. *)
Abbreviation Record := (gmap string value).

Definition hasOwnProperty (o : Record) (field : string) : bool :=
  bool_decide (is_Some (o !! field)).

Definition getProperty (o : Record) (field : string) : jsval := o !! field.

Definition dquote : string := String "034"%char EmptyString.

(** ** The data model of the comparator *)

Inductive IssueType : Type := removed | added | changed.

Record Issue : Type := mkIssue {
  field : string;
  type : IssueType;
  from : jsval;
  to : jsval;
  message : string
}.

Inductive DriftLevel : Type := Low | Medium | High.

(** The report is generic in its entries: the handler also renders an
    object literal whose issues are empty objects. *)
Record DriftReport (I : Type) : Type := mkReport {
  issues : list I;
  driftLevel : DriftLevel
}.
Arguments mkReport {I} _ _.
Arguments issues {I} _.
Arguments driftLevel {I} _.

Definition DRIFT_FIELDS : list string :=
  [ "partnerId"; "tier"; "segment"; "promoCode"; "campaignId";
    "score"; "spend"; "currency"; "category" ].

(** The level chosen from [issues.length]. *)
Definition levelOfCount (count : nat) : DriftLevel :=
  if (2 <=? count)%nat && (count <=? 4)%nat then Medium
  else if (4 <? count)%nat then High
  else Low.

Section Comparator.
Context `{!NumberToString}.

(** The conversion a template literal applies to the spliced value. *)
Definition toString (v : jsval) : string :=
  match v with
  | None => "undefined"
  | Some VNull => "null"
  | Some (VBool true) => "true"
  | Some (VBool false) => "false"
  | Some (VNum n) => numberToString n
  | Some (VStr s) => s
  end.

(** The callback of [DRIFT_FIELDS.forEach]; [issues.push(x)] is
    [issues ++ [x]] and each [return] ends the callback. *)
Definition driftCallback (v1 v2 : Record) (issues : list Issue)
    (field : string) : list Issue :=
  let has1 := hasOwnProperty v1 field in
  let has2 := hasOwnProperty v2 field in
  if has1 && negb has2 then
    issues ++ [ {| field := field; type := removed;
                   from := getProperty v1 field; to := None;
                   message := "Field removed in v2: " +:+ field +:+ " (was "
                     +:+ dquote +:+ toString (getProperty v1 field)
                     +:+ dquote +:+ ")" |} ]
  else if negb has1 && has2 then
    issues ++ [ {| field := field; type := added;
                   from := None; to := getProperty v2 field;
                   message := "Field added in v2: " +:+ field +:+ " (now "
                     +:+ dquote +:+ toString (getProperty v2 field)
                     +:+ dquote +:+ ")" |} ]
  else if has1 && has2 then
    let val1 := getProperty v1 field in
    let val2 := getProperty v2 field in
    if negb (strictEquals val1 val2) then
      issues ++ [ {| field := field; type := changed;
                     from := val1; to := val2;
                     message := "Value drift in " +:+ field +:+ ": v1="
                       +:+ dquote +:+ toString val1 +:+ dquote
                       +:+ " → v2=" +:+ dquote +:+ toString val2
                       +:+ dquote |} ]
    else issues
  else issues.

(** [compareEvents] with the field table as an argument. *)
Definition compareOver (fields : list string) (v1 v2 : Record)
    : DriftReport Issue :=
  let issues := fold_left (driftCallback v1 v2) fields [] in
  let count := length issues in
  {| issues := issues; driftLevel := levelOfCount count |}.

Definition compareEvents (v1 v2 : Record) : DriftReport Issue :=
  compareOver DRIFT_FIELDS v1 v2.

End Comparator.

Definition scenario1_v1 : Record :=
  list_to_map
    [ ("partnerId", VStr "PartnerA"); ("tier", VStr "Gold");
      ("segment", VStr "HighValue"); ("promoCode", VStr "SPRING10");
      ("campaignId", VStr "CAMP123"); ("score", VNum 82%float);
      ("spend", VNum 120%float); ("currency", VStr "USD");
      ("category", VStr "Electronics") ].

Definition scenario1_v2 : Record :=
  list_to_map
    [ ("partnerId", VStr "partner-a"); ("tier", VStr "Platinum");
      ("segment", VStr "HighValue"); ("promoCode", VStr "SPRING20");
      ("campaignId", VStr "CAMP123"); ("score", VNum 76%float);
      ("spend", VNum 120%float); ("currency", VStr "USD");
      ("category", VStr "Electronics-Devices") ].


(** ** The "Check for Drift" handler *)

(** What [JSON.parse] can return: a scalar (null, a boolean, a number or a
    string), an array or an object.  Values nested inside an array or an
    object are scalars here; deeper nesting is outside this model. *)
Inductive JsonValue : Type :=
  | JScalar (v : value)
  | JArray (elements : list value)
  | JObject (o : Record).

(** [JSON.parse] is the engine's: [inl message] when it throws a SyntaxError
    with that message, [inr v] when it returns the value [v]. *)
Class JsonParse := jsonParse : string -> string + JsonValue.

Inductive Parsed : Type :=
  | ParseOk (value : JsonValue)
  | ParseError (error : string).

(** The error the engine raises when a property of null is probed. *)
Inductive Exception : Type := TypeError.

(** A property name that a string or an array owns: [length] or a run of
    digits. *)
Definition isDigit (c : ascii) : bool :=
  (48 <=? nat_of_ascii c)%nat && (nat_of_ascii c <=? 57)%nat.

Definition isArrayKey (name : string) : bool :=
  String.eqb name "length"
  || (negb (String.eqb name EmptyString)
      && forallb isDigit (String.list_ascii_of_string name)).

(** The argument of [compareEvents] as
    [Object.prototype.hasOwnProperty.call(v, field)] sees it at a tracked
    field.  The call converts [v] to an object: null makes it throw a
    TypeError; the wrapper of a boolean or a number owns nothing; a string or
    an array owns only [length] and its indices, and no tracked field is one
    of those (lemma [DRIFT_FIELDS_no_array_key]).  So at the tracked fields a
    value that is neither null nor an object reads as the empty record. *)
Definition trackedView (v : JsonValue) : Exception + Record :=
  match v with
  | JScalar VNull => inl TypeError
  | JScalar _ => inr ∅
  | JArray _ => inr ∅
  | JObject o => inr o
  end.

Definition safeParse `{!JsonParse} (jsonText : string) : Parsed :=
  match jsonParse jsonText with
  | inr v => ParseOk v
  | inl e => ParseError e
  end.

Definition ok (p : Parsed) : bool :=
  match p with ParseOk _ => true | ParseError _ => false end.

(** [p.error]; the result of a successful parse has no such property, and
    [undefined] concatenates as its name. *)
Definition error (p : Parsed) : string :=
  match p with ParseError e => e | ParseOk _ => "undefined" end.

Definition newline : string := String "010"%char EmptyString.

(** [String.prototype.trim] on UTF-8 bytes.  The code points it strips are
    WhiteSpace (U+0009, U+000B, U+000C, U+0020, U+00A0, U+FEFF and the space
    separators U+1680, U+2000 to U+200A, U+202F, U+205F, U+3000) and
    LineTerminator (U+000A, U+000D, U+2028, U+2029). *)
Definition whiteSpace : list (list ascii) :=
  map (map ascii_of_nat)
    [ [9]; [10]; [11]; [12]; [13]; [32]; [194; 160]; [225; 154; 128];
      [226; 128; 128]; [226; 128; 129]; [226; 128; 130]; [226; 128; 131];
      [226; 128; 132]; [226; 128; 133]; [226; 128; 134]; [226; 128; 135];
      [226; 128; 136]; [226; 128; 137]; [226; 128; 138]; [226; 128; 168];
      [226; 128; 169]; [226; 128; 175]; [226; 129; 159]; [227; 128; 128];
      [239; 187; 191] ]%nat.

Fixpoint stripPrefix (t l : list ascii) : option (list ascii) :=
  match t with
  | [] => Some l
  | c :: t' =>
      match l with
      | d :: l' => if Ascii.eqb c d then stripPrefix t' l' else None
      | [] => None
      end
  end.

Fixpoint stripOne (tokens : list (list ascii)) (l : list ascii)
    : option (list ascii) :=
  match tokens with
  | [] => None
  | t :: tokens' =>
      match t, stripPrefix t l with
      | _ :: _, Some l' => Some l'
      | _, _ => stripOne tokens' l
      end
  end.

Fixpoint stripAll (fuel : nat) (tokens : list (list ascii)) (l : list ascii)
    : list ascii :=
  match fuel with
  | O => l
  | S fuel' =>
      match stripOne tokens l with
      | Some l' => stripAll fuel' tokens l'
      | None => l
      end
  end.

Definition trimStart (l : list ascii) : list ascii :=
  stripAll (length l) whiteSpace l.

Definition trimEnd (l : list ascii) : list ascii :=
  rev (stripAll (length l) (map (@rev ascii) whiteSpace) (rev l)).

Definition trim (s : string) : string :=
  String.string_of_list_ascii
    (trimEnd (trimStart (String.list_ascii_of_string s))).

(** What [renderSummary] is handed: a report of the comparator, or the
    object literal of the error path, whose issues are objects without
    properties. *)
Inductive EmptyObject : Type := emptyObject.

Inductive AnyReport : Type :=
  | Computed (r : DriftReport Issue)
  | Literal (r : DriftReport EmptyObject).

Definition issueCount (r : AnyReport) : nat :=
  match r with
  | Computed r => length (issues r)
  | Literal r => length (issues r)
  end.

Definition reportLevel (r : AnyReport) : DriftLevel :=
  match r with
  | Computed r => driftLevel r
  | Literal r => driftLevel r
  end.

(** The badge [renderSummary] puts in [#summary]: its class, and the text or
    the two values spliced into the markup. *)
Inductive Badge : Type :=
  | BadgeOk (textContent : string)
  | BadgeFail (level : DriftLevel) (count : nat).

Definition renderSummary (result : option AnyReport) : Badge :=
  match result with
  | None => BadgeOk "No drift detected for tracked fields."
  | Some r =>
      if (issueCount r =? 0)%nat
      then BadgeOk "No drift detected for tracked fields."
      else BadgeFail (reportLevel r) (issueCount r)
  end.

(** What the handler does to the page, in order; the call of the comparator
    is recorded with its arguments.  [Uncaught e] ends a trace: the
    exception [e] left the handler and nothing after it was run. *)
Inductive Effect : Type :=
  | SetStatus (textContent : string)
  | SetRawOutput (textContent : string)
  | RenderSummary (result : option AnyReport)
  | RenderDetails (result : option (DriftReport Issue))
  | CallCompareEvents (v1 v2 : JsonValue)
  | Uncaught (e : Exception).

Section Handler.
Context `{!NumberToString} `{!JsonParse}.

(** [compareEvents] on two parsed values: the first probe, at line 84 or 85
    for the first tracked field, throws when either value is null; otherwise
    the comparison runs on what the values own at the tracked fields. *)
Definition compareEventsValue (v1 v2 : JsonValue)
    : Exception + DriftReport Issue :=
  match trackedView v1 with
  | inl e => inl e
  | inr o1 =>
      match trackedView v2 with
      | inl e => inl e
      | inr o2 => inr (compareEvents o1 o2)
      end
  end.

Definition checkDriftClick (event1 event2 : string) : list Effect :=
  let raw1 := event1 in
  let raw2 := event2 in
  if String.eqb raw1 EmptyString || String.eqb raw2 EmptyString then
    [ SetStatus "Please select a scenario first; events are empty.";
      RenderSummary None; RenderDetails None ]
  else
    let parsed1 := safeParse raw1 in
    let parsed2 := safeParse raw2 in
    if negb (ok parsed1) || negb (ok parsed2) then
      let msg := "Error parsing JSON:" +:+ newline in
      let msg :=
        if negb (ok parsed1)
        then msg +:+ "- Event v1: " +:+ error parsed1 +:+ newline
        else msg in
      let msg :=
        if negb (ok parsed2)
        then msg +:+ "- Event v2: " +:+ error parsed2 +:+ newline
        else msg in
      [ SetStatus "JSON parsing error.";
        SetRawOutput (trim msg);
        RenderSummary
          (Some (Literal {| issues := [emptyObject; emptyObject];
                            driftLevel := Low |})) ]
    else
      match parsed1, parsed2 with
      | ParseOk value1, ParseOk value2 =>
          match compareEventsValue value1 value2 with
          | inr result =>
              [ CallCompareEvents value1 value2;
                SetStatus "Drift calculation complete.";
                RenderSummary (Some (Computed result));
                RenderDetails (Some result) ]
          | inl e => [ CallCompareEvents value1 value2; Uncaught e ]
          end
      | _, _ => [] (* not reached: both results are ok *)
      end.
End Handler.

(** [JSON.parse] on the texts of the examples below: it returns the empty
    object for an empty pair of braces and null for the text null, and throws
    on a lone opening brace.  The message is the engine's; no statement
    depends on it. *)
Definition sampleParse : JsonParse :=
  λ text,
    if String.eqb text "{}" then inr (JObject ∅)
    else if String.eqb text "null" then inr (JScalar VNull)
    else inl "Unexpected end of JSON input".

(** ** The comparator on the heap *)

(** [compareEvents] once more, with what the pure version leaves out: the
    objects live in a heap, the arguments are null or references, [issues] is
    an array that [push] updates in place, and a probe of null throws. *)
Abbreviation loc := positive.

Inductive Arg : Type :=
  | ArgNull
  | ArgRef (l : loc).

(** The objects of the heap: a record, an array of strings (the field
    table), an array of issues, and a report, which refers to its array.  An
    issue object is built by the literal handed to [push] and never written
    again, so the array holds it as a value. *)
Inductive Obj : Type :=
  | ObjRecord (o : Record)
  | ObjStrings (a : list string)
  | ObjIssues (a : list Issue)
  | ObjReport (issues : loc) (driftLevel : DriftLevel).

Abbreviation Heap := (gmap loc Obj).

(** The outcome of a computation: a result and the heap it leaves, an
    exception, or [Stuck] when a reference does not hold the kind of object
    the operation reads (outside the model). *)
Inductive Result (X : Type) : Type :=
  | Ok (x : X) (h : Heap)
  | Throw (e : Exception)
  | Stuck.
Arguments Ok {X} _ _.
Arguments Throw {X} _.
Arguments Stuck {X}.

Definition Run (X : Type) : Type := Heap → Result X.

Definition ret {X : Type} (x : X) : Run X := λ h, Ok x h.

Definition bind {X Y : Type} (c : Run X) (k : X → Run Y) : Run Y :=
  λ h,
    match c h with
    | Ok x h' => k x h'
    | Throw e => Throw e
    | Stuck => Stuck
    end.

Notation "'let*' x ':=' c 'in' k" := (bind c (λ x, k))
  (at level 10, x name, c at level 200, k at level 200, only parsing).

(** A new object, at an address the heap does not use. *)
Definition alloc (o : Obj) : Run loc :=
  λ h, let l := fresh (dom h) in Ok l (<[l := o]> h).

(** [Object.prototype.hasOwnProperty.call(v, field)]. *)
Definition hasOwnPropertyCall (v : Arg) (field : string) : Run bool :=
  λ h,
    match v with
    | ArgNull => Throw TypeError
    | ArgRef l =>
        match h !! l with
        | Some (ObjRecord o) => Ok (hasOwnProperty o field) h
        | _ => Stuck
        end
    end.

(** [v[field]]. *)
Definition readProperty (v : Arg) (field : string) : Run jsval :=
  λ h,
    match v with
    | ArgNull => Throw TypeError
    | ArgRef l =>
        match h !! l with
        | Some (ObjRecord o) => Ok (getProperty o field) h
        | _ => Stuck
        end
    end.

(** [issues.push(x)]: the array at [issues] is updated in place. *)
Definition push (issues : loc) (x : Issue) : Run unit :=
  λ h,
    match h !! issues with
    | Some (ObjIssues a) => Ok tt (<[issues := ObjIssues (a ++ [x])]> h)
    | _ => Stuck
    end.

(** [issues.length]. *)
Definition lengthOf (issues : loc) : Run nat :=
  λ h,
    match h !! issues with
    | Some (ObjIssues a) => Ok (length a) h
    | _ => Stuck
    end.

Definition readStrings (array : loc) : Run (list string) :=
  λ h,
    match h !! array with
    | Some (ObjStrings a) => Ok a h
    | _ => Stuck
    end.

Fixpoint forEach (a : list string) (callback : string → Run unit) : Run unit :=
  match a with
  | [] => ret tt
  | x :: a' => bind (callback x) (λ _, forEach a' callback)
  end.

Section ComparatorOnHeap.
Context `{!NumberToString}.

(** The callback; a value the source reads twice, for the attribute and for
    the message, is read once here. *)
Definition driftCallbackJS (v1 v2 : Arg) (issues : loc) (field : string)
    : Run unit :=
  let* has1 := hasOwnPropertyCall v1 field in
  let* has2 := hasOwnPropertyCall v2 field in
  if has1 && negb has2 then
    let* val1 := readProperty v1 field in
    push issues
      {| field := field; type := removed; from := val1; to := None;
         message := "Field removed in v2: " +:+ field +:+ " (was "
           +:+ dquote +:+ toString val1 +:+ dquote +:+ ")" |}
  else if negb has1 && has2 then
    let* val2 := readProperty v2 field in
    push issues
      {| field := field; type := added; from := None; to := val2;
         message := "Field added in v2: " +:+ field +:+ " (now "
           +:+ dquote +:+ toString val2 +:+ dquote +:+ ")" |}
  else if has1 && has2 then
    let* val1 := readProperty v1 field in
    let* val2 := readProperty v2 field in
    if negb (strictEquals val1 val2) then
      push issues
        {| field := field; type := changed; from := val1; to := val2;
           message := "Value drift in " +:+ field +:+ ": v1="
             +:+ dquote +:+ toString val1 +:+ dquote
             +:+ " → v2=" +:+ dquote +:+ toString val2 +:+ dquote |}
    else ret tt
  else ret tt.

(** [compareEvents(v1, v2)]; [table] is the array the global [DRIFT_FIELDS]
    is bound to.  The result is a reference to the new report object. *)
Definition compareEventsJS (table : loc) (v1 v2 : Arg) : Run loc :=
  let* issues := alloc (ObjIssues []) in
  let* fields := readStrings table in
  let* _done := forEach fields (driftCallbackJS v1 v2 issues) in
  let* count := lengthOf issues in
  let driftLevel := levelOfCount count in
  alloc (ObjReport issues driftLevel).
End ComparatorOnHeap.

(** The report a reference denotes in a heap. *)
Definition readReport (h : Heap) (report : loc) : option (DriftReport Issue) :=
  match h !! report with
  | Some (ObjReport issues driftLevel) =>
      match h !! issues with
      | Some (ObjIssues a) => Some {| issues := a; driftLevel := driftLevel |}
      | _ => None
      end
  | _ => None
  end.

(** A heap with the field table and the two Scenario 1 records. *)
Definition sampleHeap : Heap :=
  {[ 1%positive := ObjStrings DRIFT_FIELDS;
     2%positive := ObjRecord scenario1_v1;
     3%positive := ObjRecord scenario1_v2 ]}.

(** ** What the specification says, in its own words *)

(** Records [A] and [B] disagree on [f] in presence or in value. *)
Definition differs (A B : Record) (f : string) : bool :=
  match A !! f, B !! f with
  | None, None => false
  | Some a, Some b => negb (strictEqualsValue a b)
  | _, _ => true
  end.

Definition swapType (k : IssueType) : IssueType :=
  match k with
  | removed => added
  | added => removed
  | changed => changed
  end.

(** The four attributes of an issue that do not depend on wording. *)
Definition attributes (i : Issue) : string * IssueType * jsval * jsval :=
  (field i, type i, from i, to i).

Definition swapAttributes (q : string * IssueType * jsval * jsval)
    : string * IssueType * jsval * jsval :=
  let '(f, k, x, y) := q in (f, swapType k, y, x).

Section Specification.
Context `{!NumberToString}.

(** The message as a function of the other four attributes of an issue. *)
Definition issueMessage (f : string) (k : IssueType) (x y : jsval) : string :=
  match k with
  | removed =>
      "Field removed in v2: " +:+ f +:+ " (was "
        +:+ dquote +:+ toString x +:+ dquote +:+ ")"
  | added =>
      "Field added in v2: " +:+ f +:+ " (now "
        +:+ dquote +:+ toString y +:+ dquote +:+ ")"
  | changed =>
      "Value drift in " +:+ f +:+ ": v1=" +:+ dquote +:+ toString x
        +:+ dquote +:+ " → v2=" +:+ dquote +:+ toString y +:+ dquote
  end.

Definition issueOf (f : string) (k : IssueType) (x y : jsval) : Issue :=
  mkIssue f k x y (issueMessage f k x y).

(** The issue the presence pattern of [f] calls for, if any. *)
Definition expectedIssues (A B : Record) (f : string) : list Issue :=
  match A !! f, B !! f with
  | Some a, None => [issueOf f removed (Some a) None]
  | None, Some b => [issueOf f added None (Some b)]
  | Some a, Some b =>
      if strictEqualsValue a b then []
      else [issueOf f changed (Some a) (Some b)]
  | None, None => []
  end.

(** An issue is well formed for records [A] and [B]. *)
Definition wellFormedIssue (i : Issue) : Prop :=
  match type i with
  | removed => is_Some (from i) ∧ to i = None
  | added => from i = None ∧ is_Some (to i)
  | changed =>
      is_Some (from i) ∧ is_Some (to i) ∧ strictEquals (from i) (to i) = false
  end.

Definition validReport (F : list string) (r : DriftReport Issue) : Prop :=
  driftLevel r = levelOfCount (length (issues r))
  ∧ Forall wellFormedIssue (issues r)
  ∧ Forall (λ i, field i ∈ F) (issues r)
  ∧ Forall (λ i, message i = issueMessage (field i) (type i) (from i) (to i))
      (issues r).
End Specification.

(** A string made of white space and line terminators only. *)
Definition whitespaceOnly (s : string) : Prop :=
  ∃ ts : list (list ascii),
    Forall (λ t, t ∈ whiteSpace) ts ∧ String.list_ascii_of_string s = concat ts.

(** The line the handler adds to the message for a side that failed. *)
Definition errorLine (side : string) (p : Parsed) : string :=
  match p with
  | ParseError e => "- Event " +:+ side +:+ ": " +:+ e +:+ newline
  | ParseOk _ => EmptyString
  end.

Definition placeholderReport : DriftReport EmptyObject :=
  {| issues := [emptyObject; emptyObject]; driftLevel := Low |}.

(** ** Rendering the details and the page *)

(** The text of a level, as [compareEvents] stores it. *)
Definition levelName (l : DriftLevel) : string :=
  match l with Low => "Low" | Medium => "Medium" | High => "High" end.

(** [Array.prototype.join]. *)
Fixpoint join (sep : string) (l : list string) : string :=
  match l with
  | [] => EmptyString
  | [x] => x
  | x :: xs => x +:+ sep +:+ join sep xs
  end.

Definition typeEqb (a b : IssueType) : bool :=
  match a, b with
  | removed, removed | added, added | changed, changed => true
  | _, _ => false
  end.

(** [issues.filter((i) => i.type === k).map((i) => i.field)]. *)
Definition fieldsOfType (k : IssueType) (issues : list Issue) : list string :=
  map field (List.filter (λ i, typeEqb (type i) k) issues).

(** What [renderDetails] assigns to the four elements it writes:
    [#impact-line], [#fields-line], [#targeting-line] and [#raw-output]. *)
Record Details : Type := mkDetails {
  impactLine : string;
  fieldsLine : string;
  targetingLine : string;
  rawOutput : string
}.

Definition fieldsLineOf (issues : list Issue) : string :=
  let added := fieldsOfType added issues in
  let removed := fieldsOfType removed issues in
  let changed := fieldsOfType changed issues in
  let parts := [] in
  let parts :=
    if (0 <? length added)%nat
    then parts ++ ["Added: <strong>" +:+ join ", " added +:+ "</strong>"]
    else parts in
  let parts :=
    if (0 <? length removed)%nat
    then parts ++ ["Removed: <strong>" +:+ join ", " removed +:+ "</strong>"]
    else parts in
  let parts :=
    if (0 <? length changed)%nat
    then parts ++ ["Changed: <strong>" +:+ join ", " changed +:+ "</strong>"]
    else parts in
  join "<br />" parts.

Definition bulletsOf (issues : list Issue) : list string :=
  let partnerTouched :=
    existsb (λ i, String.eqb (field i) "partnerId") issues in
  let tierTouched := existsb (λ i, String.eqb (field i) "tier") issues in
  let categoryTouched :=
    existsb (λ i, String.eqb (field i) "category"
                  || String.eqb (field i) "segment") issues in
  let promoTouched :=
    existsb (λ i, String.eqb (field i) "promoCode"
                  || String.eqb (field i) "campaignId") issues in
  let scoreTouched := existsb (λ i, String.eqb (field i) "score") issues in
  let bullets := [] in
  let bullets :=
    if partnerTouched then bullets ++ ["partner classification"] else bullets in
  let bullets :=
    if tierTouched then bullets ++ ["tier-based multipliers"] else bullets in
  let bullets :=
    if categoryTouched then bullets ++ ["category-level targeting"]
    else bullets in
  let bullets :=
    if promoTouched then bullets ++ ["promo eligibility & campaign mapping"]
    else bullets in
  let bullets :=
    if scoreTouched then bullets ++ ["loyalty score & segment assignment"]
    else bullets in
  bullets.

Definition targetingLineOf (issues : list Issue) : string :=
  let bullets := bulletsOf issues in
  if (0 <? length bullets)%nat then
    "Drift is likely to affect: " +:+ "<strong>" +:+ join ", " bullets
      +:+ "</strong>."
  else
    "Drift is present but does not touch core targeting or scoring fields in this toy example.".

Definition rawOutputOf (issues : list Issue) (driftLevel : DriftLevel) : string :=
  let lines := ["Drift Detected:"] in
  let lines :=
    fold_left (λ lines issue, lines ++ ["- " +:+ message issue]) issues lines in
  let lines := lines ++ [EmptyString] in
  let lines := lines ++ ["Drift Level: " +:+ levelName driftLevel] in
  let lines := lines ++ ["Issue Count: " +:+ pretty (length issues)] in
  let lines :=
    match driftLevel with
    | High =>
        lines ++ [newline +:+ "Impact: High — expect targeting, promo eligibility, or scoring to behave differently between these versions."]
    | Medium =>
        lines ++ [newline +:+ "Impact: Medium — some targeting or promo behavior may shift; review before relying on historical results."]
    | Low =>
        lines ++ [newline +:+ "Impact: Low — small or no meaningful changes in tracked fields."]
    end in
  join newline lines.

Definition renderDetails (result : option (DriftReport Issue)) : Details :=
  match result with
  | None =>
      {| impactLine :=
           "Run a drift check to see whether this change is low, medium, or high impact.";
         fieldsLine :=
           "Added, removed, and changed fields will appear here by category.";
         targetingLine :=
           "See how partner IDs, tiers, and categories might shift behavior downstream.";
         rawOutput :=
           "Select a scenario and click " +:+ dquote +:+ "Check for Drift"
             +:+ dquote +:+ " to see detailed drift output." |}
  | Some result =>
      let '(mkReport issues driftLevel) := result in
      if (length issues =? 0)%nat then
        {| impactLine :=
             "Drift impact: <strong>Low</strong>. No field-level changes detected in tracked fields.";
           fieldsLine :=
             "No added, removed, or changed fields in the tracked set.";
           targetingLine :=
             "Targeting, promotions, and scores are likely to stay aligned across versions for tracked fields.";
           rawOutput :=
             join newline
               [ "No drift detected for tracked fields.";
                 EmptyString;
                 "Drift Level: " +:+ levelName driftLevel;
                 "Issue Count: 0";
                 EmptyString;
                 "Impact: Low — no field-level differences across the tracked keys." ] |}
      else
        {| impactLine :=
             match driftLevel with
             | Low =>
                 "Drift impact: <strong>Low</strong>. Small changes, unlikely to fully reshape targeting or promo behavior."
             | Medium =>
                 "Drift impact: <strong>Medium</strong>. Enough changes that some campaigns or scores may behave differently."
             | High =>
                 "Drift impact: <strong>High</strong>. Multiple core fields shifted — expect targeting, eligibility, or scoring to diverge between versions."
             end;
           fieldsLine := fieldsLineOf issues;
           targetingLine := targetingLineOf issues;
           rawOutput := rawOutputOf issues driftLevel |}
  end.

(** The part of the page the script writes, and the two text areas it
    reads.  [renderSummary] empties [#summary] and appends one badge. *)
Record Page : Type := mkPage {
  event1 : string;
  event2 : string;
  status : string;
  summary : list Badge;
  details : Details
}.

(** One effect of the handler, carried out on the page. *)
Definition applyEffect (p : Page) (e : Effect) : Page :=
  match e with
  | SetStatus t =>
      {| event1 := event1 p; event2 := event2 p; status := t;
         summary := summary p; details := details p |}
  | SetRawOutput t =>
      {| event1 := event1 p; event2 := event2 p; status := status p;
         summary := summary p;
         details :=
           {| impactLine := impactLine (details p);
              fieldsLine := fieldsLine (details p);
              targetingLine := targetingLine (details p);
              rawOutput := t |} |}
  | RenderSummary result =>
      {| event1 := event1 p; event2 := event2 p; status := status p;
         summary := [renderSummary result]; details := details p |}
  | RenderDetails result =>
      {| event1 := event1 p; event2 := event2 p; status := status p;
         summary := summary p; details := renderDetails result |}
  | CallCompareEvents _ _ => p
  | Uncaught _ => p
  end.

Definition resetUI (p : Page) : Page :=
  applyEffect (applyEffect p (RenderSummary None)) (RenderDetails None).

(** A click on [#checkDriftBtn]: the handler reads the two text areas and
    its effects are carried out in order. *)
Definition clickCheckDrift `{!NumberToString} `{!JsonParse} (p : Page) : Page :=
  fold_left applyEffect (checkDriftClick (event1 p) (event2 p)) p.

(** A page on which nothing has been rendered but the initial details. *)
Definition samplePage (text1 text2 : string) : Page :=
  {| event1 := text1; event2 := text2; status := EmptyString; summary := [];
     details := renderDetails None |}.

(** ** Further notions used in the statements *)

Definition isNaNValue (v : value) : bool :=
  match v with VNum n => PrimFloat.is_nan n | _ => false end.

(** Record [A] holds NaN at [f]. *)
Definition holdsNaN (A : Record) (f : string) : bool :=
  match A !! f with Some v => isNaNValue v | None => false end.

(** The kind of issue the presence pattern of [f] calls for is [k]. *)
Definition fieldHasType (A B : Record) (k : IssueType) (f : string) : bool :=
  match k, A !! f, B !! f with
  | removed, Some _, None => true
  | added, None, Some _ => true
  | changed, Some a, Some b => negb (strictEqualsValue a b)
  | _, _, _ => false
  end.

Definition levelRank (l : DriftLevel) : nat :=
  match l with Low => 0 | Medium => 1 | High => 2 end.


(** * Proofs *)

(** ** Basic facts *)

Lemma hasOwnProperty_lookup (o : Record) (f : string) :
  hasOwnProperty o f = match o !! f with Some _ => true | None => false end.
Proof.
  unfold hasOwnProperty.
  destruct (o !! f) as [v|] eqn:E.
  - apply bool_decide_eq_true. eauto.
  - apply bool_decide_eq_false. intros [v Hv]. discriminate.
Qed.

Lemma SFeqb_sym (x y : spec_float) : SFeqb x y = SFeqb y x.
Proof.
  unfold SFeqb, SFcompare.
  destruct x as [sx|sx| |sx mx ex], y as [sy|sy| |sy my ey];
    try destruct sx; try destruct sy; try reflexivity.
  all: rewrite (Z.compare_antisym ex ey); destruct (ex ?= ey)%Z; simpl;
    try reflexivity.
  all: change (Pos.compare_cont Eq my mx) with (my ?= mx)%positive;
    change (Pos.compare_cont Eq mx my) with (mx ?= my)%positive;
    rewrite (Pos.compare_antisym mx my);
    destruct (mx ?= my)%positive; reflexivity.
Qed.

Lemma strictEqualsValue_sym (a b : value) :
  strictEqualsValue a b = strictEqualsValue b a.
Proof.
  destruct a as [|x|x|x], b as [|y|y|y]; simpl; try reflexivity.
  - destruct x, y; reflexivity.
  - rewrite !FloatAxioms.eqb_spec. apply SFeqb_sym.
  - apply String.eqb_sym.
Qed.

Lemma strictEquals_sym (a b : jsval) : strictEquals a b = strictEquals b a.
Proof.
  destruct a, b; simpl; try reflexivity. apply strictEqualsValue_sym.
Qed.

Section Refinement.
Context `{!NumberToString}.

(** One run of the callback appends exactly the expected issues. *)
Lemma driftCallback_expected (A B : Record) (acc : list Issue) (f : string) :
  driftCallback A B acc f = acc ++ expectedIssues A B f.
Proof.
  unfold driftCallback, expectedIssues, getProperty.
  rewrite !hasOwnProperty_lookup.
  destruct (A !! f) as [a|], (B !! f) as [b|]; simpl;
    try reflexivity; try (symmetry; apply app_nil_r).
  destruct (strictEqualsValue a b); simpl; [symmetry; apply app_nil_r | reflexivity].
Qed.

Lemma forEach_expected (F : list string) (A B : Record) (acc : list Issue) :
  fold_left (driftCallback A B) F acc = acc ++ flat_map (expectedIssues A B) F.
Proof.
  revert acc. induction F as [|f F IH]; intros acc; simpl.
  - symmetry. apply app_nil_r.
  - rewrite IH, driftCallback_expected, <- app_assoc. reflexivity.
Qed.

Lemma issues_compareOver (F : list string) (A B : Record) :
  issues (compareOver F A B) = flat_map (expectedIssues A B) F.
Proof. unfold compareOver; simpl. apply forEach_expected. Qed.

Lemma expectedIssues_differs (A B : Record) (f : string) :
  map field (expectedIssues A B f) = if differs A B f then [f] else [].
Proof.
  unfold expectedIssues, differs.
  destruct (A !! f) as [a|], (B !! f) as [b|]; try reflexivity.
  destruct (strictEqualsValue a b); reflexivity.
Qed.

Lemma fields_compareOver (F : list string) (A B : Record) :
  map field (issues (compareOver F A B)) = List.filter (differs A B) F.
Proof.
  rewrite issues_compareOver.
  induction F as [|f F IH]; simpl; [reflexivity|].
  rewrite map_app, IH, expectedIssues_differs.
  destruct (differs A B f); reflexivity.
Qed.
End Refinement.

(** ** Properties of the comparator *)

Section Properties.
Context `{!NumberToString}.

(** C1: for every pair of records, the comparator walks the tracked fields
    in order and emits for each one exactly the issue its presence pattern
    dictates: present in A only, one [removed] issue carrying A's value and
    no [to]; present in B only, one [added] issue carrying B's value and no
    [from]; present in both with values that are not strictly equal, one
    [changed] issue carrying both values; strictly equal in both or absent
    from both, no issue.  Strict equality never identifies a number with a
    string. *)
Theorem compareOver_emits_per_field (F : list string) (A B : Record) :
  issues (compareOver F A B) = flat_map (driftCallback A B []) F
  ∧ (∀ f : string,
      (∀ a, A !! f = Some a → B !! f = None →
         driftCallback A B [] f = [issueOf f removed (Some a) None])
      ∧ (∀ b, A !! f = None → B !! f = Some b →
         driftCallback A B [] f = [issueOf f added None (Some b)])
      ∧ (∀ a b, A !! f = Some a → B !! f = Some b →
         strictEqualsValue a b = false →
         driftCallback A B [] f = [issueOf f changed (Some a) (Some b)])
      ∧ (∀ a b, A !! f = Some a → B !! f = Some b →
         strictEqualsValue a b = true → driftCallback A B [] f = [])
      ∧ (A !! f = None → B !! f = None → driftCallback A B [] f = []))
  ∧ (∀ (n : float) (s : string),
      strictEqualsValue (VNum n) (VStr s) = false
      ∧ strictEqualsValue (VStr s) (VNum n) = false)
  ∧ strictEqualsValue (VNum 5%float) (VStr "5") = false.
Proof.
  split; [|split; [|split]].
  - rewrite issues_compareOver.
    apply flat_map_ext. intros f. rewrite driftCallback_expected. reflexivity.
  - intros f. rewrite driftCallback_expected. unfold expectedIssues. simpl.
    repeat split.
    + intros a -> ->. reflexivity.
    + intros b -> ->. reflexivity.
    + intros a b -> -> ->. reflexivity.
    + intros a b -> -> ->. reflexivity.
    + intros -> ->. reflexivity.
  - intros n s. split; reflexivity.
  - reflexivity.
Qed.

Lemma count_occ_filter_differs (A B : Record) (F : list string) (f : string) :
  count_occ String.string_dec (List.filter (differs A B) F) f
  = if differs A B f then count_occ String.string_dec F f else 0%nat.
Proof.
  induction F as [|x F IH]; simpl.
  - destruct (differs A B f); reflexivity.
  - destruct (differs A B x) eqn:Dx; simpl.
    + destruct (String.string_dec x f) as [->|Hne].
      * rewrite IH, Dx. reflexivity.
      * rewrite IH. reflexivity.
    + rewrite IH. destruct (String.string_dec x f) as [->|Hne]; [|reflexivity].
      rewrite Dx. reflexivity.
Qed.

(** C2: the report holds one issue for each entry of the tracked field list
    on which the two records disagree in presence or value, and nothing
    else: the fields of its issues are the disagreeing entries of the list,
    its length is their number, and a field on which the records agree (or
    that both lack) has no issue. *)
Theorem compareOver_one_issue_per_difference (F : list string) (A B : Record) :
  map field (issues (compareOver F A B)) = List.filter (differs A B) F
  ∧ length (issues (compareOver F A B)) = length (List.filter (differs A B) F)
  ∧ (∀ f : string,
      count_occ String.string_dec (map field (issues (compareOver F A B))) f
      = if differs A B f then count_occ String.string_dec F f else 0%nat)
  ∧ (∀ f : string,
      (A !! f = None ∧ B !! f = None
       ∨ ∃ a b, A !! f = Some a ∧ B !! f = Some b
                ∧ strictEqualsValue a b = true) →
      f ∉ map field (issues (compareOver F A B))).
Proof.
  pose proof (fields_compareOver F A B) as HF.
  split; [exact HF|]. split; [|split].
  - rewrite <- HF. symmetry. apply length_map.
  - intros f. rewrite HF. apply count_occ_filter_differs.
  - intros f Hagree. rewrite HF, list_elem_of_In, filter_In.
    intros [_ Hd]. unfold differs in Hd.
    destruct Hagree as [[HA HB]|(a & b & HA & HB & Heq)];
      rewrite HA, HB in Hd; [|rewrite Heq in Hd]; discriminate.
Qed.

(** C3: the level of a report depends on its issue count alone: fewer than
    2 issues give Low, 2 to 4 give Medium, more than 4 give High; so 0 and 1
    are Low, 2 and 4 are Medium, 5 is High. *)
Theorem compareOver_level_from_count (F : list string) (A B : Record) :
  let r := compareOver F A B in
  let n := length (issues r) in
  driftLevel r = levelOfCount n
  ∧ ((n < 2)%nat → driftLevel r = Low)
  ∧ ((2 ≤ n ≤ 4)%nat → driftLevel r = Medium)
  ∧ ((n > 4)%nat → driftLevel r = High)
  ∧ (∀ (F' : list string) (A' B' : Record),
       length (issues (compareOver F' A' B')) = n →
       driftLevel (compareOver F' A' B') = driftLevel r)
  ∧ levelOfCount 0%nat = Low ∧ levelOfCount 1%nat = Low
  ∧ levelOfCount 2%nat = Medium ∧ levelOfCount 4%nat = Medium
  ∧ levelOfCount 5%nat = High.
Proof.
  intros r n.
  assert (Hl : driftLevel r = levelOfCount n) by reflexivity.
  split; [exact Hl|]. rewrite Hl. unfold levelOfCount.
  repeat split.
  - intros Hn. destruct (2 <=? n)%nat eqn:E1; simpl.
    + apply Nat.leb_le in E1. lia.
    + destruct (4 <? n)%nat eqn:E2; [apply Nat.ltb_lt in E2; lia|reflexivity].
  - intros [H2 H4].
    apply Nat.leb_le in H2, H4. rewrite H2, H4. reflexivity.
  - intros Hn. destruct (n <=? 4)%nat eqn:E1.
    + apply Nat.leb_le in E1. lia.
    + rewrite andb_false_r.
      destruct (4 <? n)%nat eqn:E2; [reflexivity|apply Nat.ltb_ge in E2; lia].
  - intros F' A' B' Hlen. unfold compareOver at 1. simpl.
    unfold levelOfCount. fold (compareOver F' A' B').
    change (fold_left (driftCallback A' B') F' [])
      with (issues (compareOver F' A' B')).
    rewrite Hlen. reflexivity.
Qed.
Lemma expectedIssues_swap (A B : Record) (f : string) :
  map attributes (expectedIssues B A f)
  = map (swapAttributes ∘ attributes) (expectedIssues A B f).
Proof.
  unfold expectedIssues.
  destruct (A !! f) as [a|], (B !! f) as [b|]; try reflexivity.
  rewrite (strictEqualsValue_sym b a).
  destruct (strictEqualsValue a b); reflexivity.
Qed.

Lemma attributes_swap (F : list string) (A B : Record) :
  map attributes (issues (compareOver F B A))
  = map (swapAttributes ∘ attributes) (issues (compareOver F A B)).
Proof.
  rewrite !issues_compareOver.
  induction F as [|f F IH]; simpl; [reflexivity|].
  rewrite !map_app, IH, expectedIssues_swap. reflexivity.
Qed.

Lemma swapped_projections (l l' : list Issue) :
  map attributes l' = map (swapAttributes ∘ attributes) l →
  map field l' = map field l
  ∧ map (λ i, (field i, type i)) l' = map (λ i, (field i, swapType (type i))) l
  ∧ map from l' = map to l
  ∧ map to l' = map from l.
Proof.
  revert l'. induction l as [|i l IH]; intros [|i' l'] Hq;
    try discriminate; [repeat split|].
  simpl in Hq. injection Hq as Ef Ek Ex Ey Htail.
  destruct (IH l' Htail) as (Hf & Hk & Hx & Hy).
  simpl. rewrite Hf, Hk, Hx, Hy, Ef, Ek, Ex, Ey. repeat split.
Qed.

(** C5: comparing B against A gives as many issues as comparing A against
    B, on the same fields in the same order, with [added] and [removed]
    exchanged, [changed] kept, and the two values exchanged. *)
Theorem compareOver_swap (F : list string) (A B : Record) :
  let r := compareOver F A B in
  let r' := compareOver F B A in
  length (issues r') = length (issues r)
  ∧ map field (issues r') = map field (issues r)
  ∧ (∀ f : string, f ∈ map field (issues r') ↔ f ∈ map field (issues r))
  ∧ map (λ i, (field i, type i)) (issues r')
    = map (λ i, (field i, swapType (type i))) (issues r)
  ∧ map from (issues r') = map to (issues r)
  ∧ map to (issues r') = map from (issues r)
  ∧ swapType removed = added ∧ swapType added = removed
  ∧ swapType changed = changed.
Proof.
  intros r r'.
  destruct (swapped_projections _ _ (attributes_swap F A B))
    as (Hf & Hk & Hx & Hy).
  fold r r' in Hf, Hk, Hx, Hy.
  split; [|split; [exact Hf|split; [|split; [exact Hk|split; [exact Hx|split; [exact Hy|]]]]]].
  - rewrite <- (length_map field (issues r')), Hf. apply length_map.
  - intros f. rewrite Hf. reflexivity.
  - repeat split.
Qed.

Lemma expectedIssues_message (A B : Record) (f : string) :
  Forall (λ i, message i = issueMessage (field i) (type i) (from i) (to i))
    (expectedIssues A B f).
Proof.
  unfold expectedIssues.
  destruct (A !! f) as [a|], (B !! f) as [b|];
    try destruct (strictEqualsValue a b); repeat constructor.
Qed.

Lemma compareOver_message (F : list string) (A B : Record) :
  Forall (λ i, message i = issueMessage (field i) (type i) (from i) (to i))
    (issues (compareOver F A B)).
Proof.
  rewrite issues_compareOver.
  induction F as [|f F IH]; simpl; [constructor|].
  apply Forall_app. split; [apply expectedIssues_message|exact IH].
Qed.

Lemma expectedIssues_agree (A B A' B' : Record) (f : string) :
  A !! f = A' !! f → B !! f = B' !! f →
  expectedIssues A B f = expectedIssues A' B' f.
Proof. unfold expectedIssues. intros -> ->. reflexivity. Qed.

Lemma compareOver_agree (F : list string) (A B A' B' : Record) :
  (∀ f, f ∈ F → A' !! f = A !! f ∧ B' !! f = B !! f) →
  compareOver F A' B' = compareOver F A B.
Proof.
  intros Hagree.
  assert (Hi : issues (compareOver F A' B') = issues (compareOver F A B)).
  { rewrite !issues_compareOver.
    induction F as [|f F IH]; simpl; [reflexivity|].
    destruct (Hagree f) as [HA HB]; [left|].
    rewrite (expectedIssues_agree A' B' A B f HA HB).
    f_equal. apply IH. intros g Hg. apply Hagree. right. exact Hg. }
  unfold compareOver in *. simpl in *. rewrite Hi. reflexivity.
Qed.

Lemma sublist_filter_bool {X : Type} (p : X → bool) (l : list X) :
  sublist (List.filter p l) l.
Proof.
  induction l as [|x l IH]; simpl; [constructor|].
  destruct (p x); [apply sublist_skip|apply sublist_cons]; exact IH.
Qed.

(** C7: the field names of the issues of a report are, in order, the
    tracked fields partnerId, tier, segment, promoCode, campaignId, score,
    spend, currency, category on which the records differ. *)
Theorem compareEvents_in_tracked_order (A B : Record) :
  DRIFT_FIELDS
  = [ "partnerId"; "tier"; "segment"; "promoCode"; "campaignId";
      "score"; "spend"; "currency"; "category" ]
  ∧ map field (issues (compareEvents A B))
    = List.filter (differs A B) DRIFT_FIELDS
  ∧ sublist (map field (issues (compareEvents A B))) DRIFT_FIELDS.
Proof.
  unfold compareEvents. rewrite fields_compareOver.
  split; [reflexivity|]. split; [reflexivity|]. apply sublist_filter_bool.
Qed.
Lemma expectedIssues_wellFormed (A B : Record) (f : string) :
  Forall (λ i, wellFormedIssue i ∧ field i = f
               ∧ from i = A !! f ∧ to i = B !! f)
    (expectedIssues A B f).
Proof.
  unfold expectedIssues.
  destruct (A !! f) as [a|], (B !! f) as [b|];
    try destruct (strictEqualsValue a b) eqn:E; repeat constructor;
    unfold wellFormedIssue; simpl; eauto.
Qed.

Lemma compareOver_wellFormed (F : list string) (A B : Record) :
  Forall (λ i, wellFormedIssue i ∧ field i ∈ F
               ∧ from i = A !! field i ∧ to i = B !! field i)
    (issues (compareOver F A B)).
Proof.
  rewrite issues_compareOver.
  induction F as [|f F IH]; simpl; [constructor|].
  apply Forall_app. split.
  - eapply Forall_impl; [apply expectedIssues_wellFormed|].
    intros i (Hwf & <- & Hx & Hy).
    split; [exact Hwf|]. split; [left|]. split; assumption.
  - eapply Forall_impl; [exact IH|].
    intros i (Hwf & Hin & Hx & Hy).
    split; [exact Hwf|]. split; [right; exact Hin|]. split; assumption.
Qed.

Lemma compareOver_NoDup (F : list string) (A B : Record) :
  NoDup F → NoDup (map field (issues (compareOver F A B))).
Proof.
  intros HF. rewrite fields_compareOver.
  apply NoDup_ListNoDup, List.NoDup_filter, NoDup_ListNoDup, HF.
Qed.

Lemma compareOver_empty (F : list string) :
  compareOver F ∅ ∅ = {| issues := []; driftLevel := Low |}.
Proof.
  assert (Hi : issues (compareOver F ∅ ∅) = []).
  { rewrite issues_compareOver.
    induction F as [|f F IH]; simpl; [reflexivity|].
    rewrite IH. unfold expectedIssues. rewrite lookup_empty. reflexivity. }
  unfold compareOver in *. simpl in *. rewrite Hi. reflexivity.
Qed.

(** C9: comparing the two Scenario 1 records yields exactly five issues,
    one [changed] issue each for partnerId, tier, promoCode, score and
    category, in that order, and level High. *)
Theorem scenario1_five_changes_high :
  compareEvents scenario1_v1 scenario1_v2
  = {| issues :=
         [ issueOf "partnerId" changed
             (Some (VStr "PartnerA")) (Some (VStr "partner-a"));
           issueOf "tier" changed
             (Some (VStr "Gold")) (Some (VStr "Platinum"));
           issueOf "promoCode" changed
             (Some (VStr "SPRING10")) (Some (VStr "SPRING20"));
           issueOf "score" changed
             (Some (VNum 82%float)) (Some (VNum 76%float));
           issueOf "category" changed
             (Some (VStr "Electronics")) (Some (VStr "Electronics-Devices")) ];
       driftLevel := High |}
  ∧ length (issues (compareEvents scenario1_v1 scenario1_v2)) = 5%nat
  ∧ driftLevel (compareEvents scenario1_v1 scenario1_v2) = High.
Proof. repeat split; vm_compute; reflexivity. Qed.

Lemma NoDup_DRIFT_FIELDS : NoDup DRIFT_FIELDS.
Proof. apply (bool_decide_unpack _). vm_compute. exact I. Qed.

(** C10: every issue of a report of the comparator is well formed: a
    [removed] issue has no [to], an [added] issue has no [from], a [changed]
    issue has both, and they are not strictly equal; its field is a tracked
    field; and no field has two issues in the report. *)
Theorem compareEvents_issues_well_formed (A B : Record) :
  (∀ i : Issue, i ∈ issues (compareEvents A B) →
     (type i = removed → to i = None)
     ∧ (type i = added → from i = None)
     ∧ (type i = changed →
        ∃ a b, from i = Some a ∧ to i = Some b
               ∧ strictEqualsValue a b = false)
     ∧ field i ∈ DRIFT_FIELDS)
  ∧ NoDup (map field (issues (compareEvents A B))).
Proof.
  split; [|apply compareOver_NoDup, NoDup_DRIFT_FIELDS].
  intros i Hi.
  pose proof (compareOver_wellFormed DRIFT_FIELDS A B) as Hwf.
  rewrite Forall_forall in Hwf.
  destruct (Hwf i Hi) as (Hw & Hin & _ & _).
  unfold wellFormedIssue in Hw.
  repeat split; try exact Hin; intros Hk; rewrite Hk in Hw.
  - apply Hw.
  - apply Hw.
  - destruct Hw as ([a Ha] & [b Hb] & Hne).
    exists a, b. rewrite Ha, Hb in Hne. repeat split; assumption.
Qed.
End Properties.

(** ** Worked examples *)

(** Scenario 4 of the specification: the second record lacks a tracked field
    of the first. *)
Example tier_removed :
  @compareEvents integerNumeral
    {[ "tier" := VStr "Gold"; "score" := VNum 60%float ]}
    {[ "score" := VNum 60%float ]}
  = {| issues := [ @issueOf integerNumeral "tier" removed (Some (VStr "Gold")) None ];
       driftLevel := Low |}.
Proof. vm_compute. reflexivity. Qed.

Example tier_added :
  @compareEvents integerNumeral
    {[ "score" := VNum 60%float ]}
    {[ "tier" := VStr "Gold"; "score" := VNum 60%float ]}
  = {| issues := [ @issueOf integerNumeral "tier" added None (Some (VStr "Gold")) ];
       driftLevel := Low |}.
Proof. vm_compute. reflexivity. Qed.

(** The number 5 and the string of the digit 5 are different values, and the
    message prints both the same way. *)
Example number_against_string :
  map (λ i, (field i, type i, @toString integerNumeral (from i),
              @toString integerNumeral (to i)))
    (issues (@compareEvents integerNumeral
               {[ "spend" := VNum 5%float ]} {[ "spend" := VStr "5" ]}))
  = [ ("spend", changed, "5", "5") ].
Proof. vm_compute. reflexivity. Qed.

(** Fields outside the table are ignored. *)
Example untracked_field_ignored :
  @compareEvents integerNumeral
    {[ "note" := VStr "a" ]} {[ "note" := VStr "b" ]}
  = {| issues := []; driftLevel := Low |}.
Proof. vm_compute. reflexivity. Qed.

(** ** Properties of the handler *)

Lemma stripPrefix_app (t l l' : list ascii) :
  stripPrefix t l = Some l' → l = t ++ l'.
Proof.
  revert l. induction t as [|c t IH]; intros [|d l]; simpl; intros Hs;
    try discriminate.
  - injection Hs as <-. reflexivity.
  - injection Hs as <-. reflexivity.
  - destruct (Ascii.eqb c d) eqn:E; [|discriminate].
    apply Ascii.eqb_eq in E. subst d. f_equal. apply IH. exact Hs.
Qed.

Lemma stripOne_app (tokens : list (list ascii)) (l l' : list ascii) :
  stripOne tokens l = Some l' → ∃ t, t ∈ tokens ∧ l = t ++ l'.
Proof.
  induction tokens as [|t tokens IH]; cbn [stripOne]; [discriminate|].
  intros Hs.
  assert (Hrest : stripOne tokens l = Some l' → ∃ t0, t0 ∈ t :: tokens ∧ l = t0 ++ l').
  { intros Hr. destruct (IH Hr) as (t0 & Hin & Heq).
    exists t0. split; [right; exact Hin|exact Heq]. }
  destruct t as [|c t]; [exact (Hrest Hs)|].
  remember (stripPrefix (c :: t) l) as o eqn:E. symmetry in E.
  destruct o as [l0|]; [|exact (Hrest Hs)].
  injection Hs as <-. exists (c :: t). split; [left|].
  apply stripPrefix_app. exact E.
Qed.

Lemma stripAll_app (fuel : nat) (tokens : list (list ascii)) (l : list ascii) :
  ∃ ts, Forall (λ t, t ∈ tokens) ts ∧ l = concat ts ++ stripAll fuel tokens l.
Proof.
  revert l. induction fuel as [|fuel IH]; intros l; simpl.
  - exists []. split; [constructor|reflexivity].
  - destruct (stripOne tokens l) as [l'|] eqn:E.
    + destruct (stripOne_app _ _ _ E) as (t & Hin & ->).
      destruct (IH l') as (ts & Hts & Heq).
      exists (t :: ts). split; [constructor; assumption|].
      simpl. rewrite <- app_assoc, <- Heq. reflexivity.
    + exists []. split; [constructor|reflexivity].
Qed.

Lemma rev_concat_whiteSpace (ts : list (list ascii)) :
  Forall (λ t, t ∈ map (@rev ascii) whiteSpace) ts →
  ∃ ts', Forall (λ t, t ∈ whiteSpace) ts' ∧ rev (concat ts) = concat ts'.
Proof.
  induction 1 as [|t ts Ht _ (ts' & Hts' & Heq)]; simpl.
  - exists []. split; [constructor|reflexivity].
  - apply list_elem_of_fmap in Ht as (w & -> & Hw).
    exists (ts' ++ [w]). split.
    + apply Forall_app. split; [exact Hts'|]. constructor; [exact Hw|constructor].
    + rewrite rev_app_distr, Heq, rev_involutive, concat_app. simpl.
      rewrite app_nil_r. reflexivity.
Qed.

Lemma trimEnd_app (l : list ascii) :
  ∃ ts, Forall (λ t, t ∈ whiteSpace) ts ∧ l = trimEnd l ++ concat ts.
Proof.
  unfold trimEnd.
  destruct (stripAll_app (length l) (map (@rev ascii) whiteSpace) (rev l))
    as (ts & Hts & Heq).
  destruct (rev_concat_whiteSpace ts Hts) as (ts' & Hts' & Hrev).
  exists ts'. split; [exact Hts'|].
  rewrite <- Hrev, <- rev_app_distr, <- Heq, rev_involutive. reflexivity.
Qed.

Lemma append_assoc (s t u : string) : (s +:+ t) +:+ u = s +:+ t +:+ u.
Proof.
  induction s as [|c s IH]; [reflexivity|].
  change (String c (s +:+ t) +:+ u = String c (s +:+ t +:+ u)).
  change (String c ((s +:+ t) +:+ u) = String c (s +:+ t +:+ u)).
  rewrite IH. reflexivity.
Qed.

Lemma append_nil_r (s : string) : s +:+ EmptyString = s.
Proof.
  induction s as [|c s IH]; [reflexivity|].
  change (String c (s +:+ EmptyString) = String c s).
  rewrite IH. reflexivity.
Qed.

Lemma string_of_list_ascii_app (l l' : list ascii) :
  String.string_of_list_ascii (l ++ l')
  = String.string_of_list_ascii l +:+ String.string_of_list_ascii l'.
Proof. induction l as [|c l IH]; simpl; [reflexivity|]. rewrite IH. reflexivity. Qed.

(** On a string that does not start with white space, [trim] only drops
    trailing white space. *)
Lemma trim_drops_trailing_whitespace (s : string) :
  trimStart (String.list_ascii_of_string s) = String.list_ascii_of_string s →
  ∃ ws, whitespaceOnly ws ∧ s = trim s +:+ ws.
Proof.
  intros Hstart. unfold trim. rewrite Hstart.
  destruct (trimEnd_app (String.list_ascii_of_string s)) as (ts & Hts & Heq).
  exists (String.string_of_list_ascii (concat ts)). split.
  - exists ts. split; [exact Hts|].
    apply String.list_ascii_of_string_of_list_ascii.
  - rewrite <- string_of_list_ascii_app, <- Heq.
    symmetry. apply String.string_of_list_ascii_of_string.
Qed.

Section HandlerProperties.
Context `{!NumberToString} `{!JsonParse}.

(** C4, as the code has it: when both texts are non-empty and parsing of
    either fails, the handler sets the status to "JSON parsing error.",
    writes to the raw output the trimmed message that holds one line for
    each failing side with that side's error (both lines when both fail;
    trimming drops trailing white space only), never calls the comparator,
    does not render the details, and renders the summary from an object
    literal with two empty issues and level Low, shown as a failing badge
    with Low and 2. *)
Theorem checkDriftClick_parse_failure (raw1 raw2 : string) :
  raw1 ≠ EmptyString → raw2 ≠ EmptyString →
  ok (safeParse raw1) = false ∨ ok (safeParse raw2) = false →
  let msg := "Error parsing JSON:" +:+ newline
               +:+ errorLine "v1" (safeParse raw1)
               +:+ errorLine "v2" (safeParse raw2) in
  checkDriftClick raw1 raw2
  = [ SetStatus "JSON parsing error.";
      SetRawOutput (trim msg);
      RenderSummary (Some (Literal placeholderReport)) ]
  ∧ (∃ ws, whitespaceOnly ws ∧ msg = trim msg +:+ ws)
  ∧ (∀ v1 v2, CallCompareEvents v1 v2 ∉ checkDriftClick raw1 raw2)
  ∧ (∀ r, RenderDetails r ∉ checkDriftClick raw1 raw2)
  ∧ renderSummary (Some (Literal placeholderReport)) = BadgeFail Low 2.
Proof.
  intros H1 H2 Hfail msg.
  assert (Htrace : checkDriftClick raw1 raw2
            = [ SetStatus "JSON parsing error."; SetRawOutput (trim msg);
                RenderSummary (Some (Literal placeholderReport)) ]).
  { unfold checkDriftClick.
    apply String.eqb_neq in H1, H2. rewrite H1, H2. simpl.
    subst msg.
    destruct (safeParse raw1) as [v1|e1], (safeParse raw2) as [v2|e2];
      simpl in *.
    - destruct Hfail; discriminate.
    - rewrite append_assoc. reflexivity.
    - rewrite append_nil_r, append_assoc. reflexivity.
    - rewrite !append_assoc. reflexivity. }
  split; [exact Htrace|]. rewrite Htrace.
  split; [|split; [|split]].
  - apply trim_drops_trailing_whitespace. reflexivity.
  - intros v1 v2 Hin.
    repeat (apply elem_of_cons in Hin as [Hin|Hin]; [discriminate|]).
    apply elem_of_nil in Hin. exact Hin.
  - intros r Hin.
    repeat (apply elem_of_cons in Hin as [Hin|Hin]; [discriminate|]).
    apply elem_of_nil in Hin. exact Hin.
  - reflexivity.
Qed.
End HandlerProperties.

(** C4, as stated, fails: with a lone opening brace as the first text the
    parse fails, and the handler renders a report that no comparison
    produced. *)
Lemma checkDriftClick_renders_literal_report :
  let trace := @checkDriftClick integerNumeral sampleParse "{" "{}" in
  ok (@safeParse sampleParse "{") = false
  ∧ ¬ (∀ r : DriftReport EmptyObject,
         RenderSummary (Some (Literal r)) ∉ trace).
Proof.
  split; [reflexivity|].
  intros Hnone. apply (Hnone placeholderReport).
  vm_compute. right. right. left.
Qed.

Lemma checkDriftClick_parse_failure_witness :
  @checkDriftClick integerNumeral sampleParse "{" "{}"
  = [ SetStatus "JSON parsing error.";
      SetRawOutput
        (trim ("Error parsing JSON:" +:+ newline
                 +:+ errorLine "v1" (@safeParse sampleParse "{")
                 +:+ errorLine "v2" (@safeParse sampleParse "{}")));
      RenderSummary (Some (Literal placeholderReport)) ].
Proof.
  apply (@checkDriftClick_parse_failure integerNumeral sampleParse "{" "{}").
  - discriminate.
  - discriminate.
  - left. reflexivity.
Defined.

(** ** The paths of the handler *)

Section HandlerPaths.
Context `{!NumberToString} `{!JsonParse}.

Lemma checkDriftClick_empty (raw1 raw2 : string) :
  raw1 = EmptyString ∨ raw2 = EmptyString →
  checkDriftClick raw1 raw2
  = [ SetStatus "Please select a scenario first; events are empty.";
      RenderSummary None; RenderDetails None ].
Proof.
  intros [-> | ->]; unfold checkDriftClick; simpl; [reflexivity|].
  rewrite orb_true_r. reflexivity.
Qed.

Lemma checkDriftClick_failure (raw1 raw2 : string) :
  raw1 ≠ EmptyString → raw2 ≠ EmptyString →
  ok (safeParse raw1) = false ∨ ok (safeParse raw2) = false →
  checkDriftClick raw1 raw2
  = [ SetStatus "JSON parsing error.";
      SetRawOutput
        (trim ("Error parsing JSON:" +:+ newline
                 +:+ errorLine "v1" (safeParse raw1)
                 +:+ errorLine "v2" (safeParse raw2)));
      RenderSummary (Some (Literal placeholderReport)) ].
Proof.
  intros H1 H2 Hfail. unfold checkDriftClick.
  apply String.eqb_neq in H1, H2. rewrite H1, H2. simpl.
  destruct (safeParse raw1) as [v1|e1], (safeParse raw2) as [v2|e2];
    simpl in *.
  - destruct Hfail; discriminate.
  - rewrite append_assoc. reflexivity.
  - rewrite append_nil_r, append_assoc. reflexivity.
  - rewrite !append_assoc. reflexivity.
Qed.













(** X3: a click while either text area is empty does not look at the other
    text: whatever the parser, the page ends as [resetUI] leaves it, with the
    status asking to select a scenario. *)
Theorem clickCheckDrift_empty_text (p : Page) :
  event1 p = EmptyString ∨ event2 p = EmptyString →
  clickCheckDrift p
  = resetUI
      (applyEffect p
         (SetStatus "Please select a scenario first; events are empty.")).
Proof.
  intros Hempty. unfold clickCheckDrift.
  rewrite (checkDriftClick_empty _ _ Hempty). reflexivity.
Qed.

(** X4: a click on two non-empty texts of which one does not parse replaces
    the status, the summary (a failing badge with Low and 2) and the raw
    output (the trimmed error message), and leaves the impact, fields and
    targeting lines as they were before the click. *)
Theorem clickCheckDrift_parse_failure_page (p : Page) :
  event1 p ≠ EmptyString → event2 p ≠ EmptyString →
  ok (safeParse (event1 p)) = false ∨ ok (safeParse (event2 p)) = false →
  let q := clickCheckDrift p in
  status q = "JSON parsing error."
  ∧ summary q = [BadgeFail Low 2]
  ∧ rawOutput (details q)
    = trim ("Error parsing JSON:" +:+ newline
              +:+ errorLine "v1" (safeParse (event1 p))
              +:+ errorLine "v2" (safeParse (event2 p)))
  ∧ impactLine (details q) = impactLine (details p)
  ∧ fieldsLine (details q) = fieldsLine (details p)
  ∧ targetingLine (details q) = targetingLine (details p).
Proof.
  intros H1 H2 Hfail q. subst q. unfold clickCheckDrift.
  rewrite (checkDriftClick_failure _ _ H1 H2 Hfail). simpl.
  repeat split.
Qed.

End HandlerPaths.

(** ** Further properties of the comparator *)

Lemma filter_nil_iff {X : Type} (p : X → bool) (l : list X) :
  List.filter p l = [] ↔ ∀ x, x ∈ l → p x = false.
Proof.
  induction l as [|x l IH]; simpl.
  - split; [intros _ y Hy; apply elem_of_nil in Hy; destruct Hy|reflexivity].
  - destruct (p x) eqn:Px.
    + split; [discriminate|].
      intros Hall. rewrite (Hall x) in Px; [discriminate|left].
    + rewrite IH. split.
      * intros Hall y Hy. apply elem_of_cons in Hy as [->|Hy]; auto.
      * intros Hall y Hy. apply Hall. right. exact Hy.
Qed.

Lemma filter_full_iff {X : Type} (p : X → bool) (l : list X) :
  length (List.filter p l) = length l ↔ ∀ x, x ∈ l → p x = true.
Proof.
  induction l as [|x l IH]; simpl.
  - split; [intros _ y Hy; apply elem_of_nil in Hy; destruct Hy|reflexivity].
  - pose proof (List.filter_length_le p l) as Hle.
    destruct (p x) eqn:Px; simpl.
    + split.
      * intros Hlen y Hy. apply elem_of_cons in Hy as [->|Hy]; [exact Px|].
        apply IH; [lia|exact Hy].
      * intros Hall. f_equal. apply IH. intros y Hy. apply Hall. right. exact Hy.
    + split; [lia|].
      intros Hall. rewrite (Hall x) in Px; [discriminate|left].
Qed.

Lemma strictEqualsValue_self (v : value) :
  strictEqualsValue v v = negb (isNaNValue v).
Proof.
  destruct v as [|b|n|s]; simpl.
  - reflexivity.
  - destruct b; reflexivity.
  - unfold PrimFloat.is_nan. rewrite negb_involutive. reflexivity.
  - apply String.eqb_refl.
Qed.

Lemma fieldsOfType_partition (l : list Issue) :
  fieldsOfType added l ++ fieldsOfType removed l ++ fieldsOfType changed l
  ≡ₚ map field l.
Proof.
  induction l as [|i l IH]; [reflexivity|].
  unfold fieldsOfType in *. simpl.
  destruct (type i); simpl.
  - rewrite <- IH. symmetry. apply Permutation_middle.
  - rewrite <- IH. reflexivity.
  - rewrite <- IH, !app_assoc. symmetry. apply Permutation_middle.
Qed.

Section MoreProperties.
Context `{!NumberToString}.

Lemma length_issues_compareOver (F : list string) (A B : Record) :
  length (issues (compareOver F A B)) = length (List.filter (differs A B) F).
Proof. rewrite <- fields_compareOver. symmetry. apply length_map. Qed.

Lemma driftLevel_compareOver (F : list string) (A B : Record) :
  driftLevel (compareOver F A B)
  = levelOfCount (length (issues (compareOver F A B))).
Proof. reflexivity. Qed.

(** X6: for a report of the comparator the summary shows "No drift detected
    for tracked fields." exactly when the records agree on every tracked
    field; otherwise it shows a failing badge with the number of tracked
    fields that differ, between 1 and 9, and the level of that number. *)
Theorem renderSummary_compareEvents (A B : Record) :
  let n := length (List.filter (differs A B) DRIFT_FIELDS) in
  (renderSummary (Some (Computed (compareEvents A B)))
   = BadgeOk "No drift detected for tracked fields."
   ↔ ∀ f, f ∈ DRIFT_FIELDS → differs A B f = false)
  ∧ ((∃ f, f ∈ DRIFT_FIELDS ∧ differs A B f = true) →
     renderSummary (Some (Computed (compareEvents A B)))
     = BadgeFail (levelOfCount n) n
     ∧ (1 ≤ n ≤ 9)%nat).
Proof.
  intros n.
  assert (Hr : renderSummary (Some (Computed (compareEvents A B)))
               = if (n =? 0)%nat
                 then BadgeOk "No drift detected for tracked fields."
                 else BadgeFail (levelOfCount n) n).
  { unfold renderSummary, issueCount, reportLevel, compareEvents.
    rewrite driftLevel_compareOver, length_issues_compareOver.
    reflexivity. }
  rewrite Hr.
  assert (Hn : n = 0%nat ↔ ∀ f, f ∈ DRIFT_FIELDS → differs A B f = false).
  { rewrite <- filter_nil_iff. subst n.
    destruct (List.filter (differs A B) DRIFT_FIELDS);
      simpl; split; (reflexivity || discriminate). }
  split.
  - rewrite <- Hn. destruct (Nat.eqb_spec n 0) as [E|E].
    + split; [intros _; exact E|reflexivity].
    + split; [discriminate|intros E'; contradiction].
  - intros (f & Hf & Hd).
    assert (n ≠ 0%nat) as Hne.
    { intros E. destruct Hn as [Hn _].
      rewrite (Hn E f Hf) in Hd. discriminate. }
    destruct (Nat.eqb_spec n 0) as [E|_]; [contradiction|].
    split; [reflexivity|].
    pose proof (List.filter_length_le (differs A B) DRIFT_FIELDS) as Hle.
    fold n in Hle. simpl in Hle. lia.
Qed.

(** X7: a report never has more issues than there are tracked fields, nine
    for [compareEvents], and it has that many exactly when the records
    differ on every tracked field. *)
Theorem compareOver_issue_bound (F : list string) (A B : Record) :
  (length (issues (compareOver F A B)) ≤ length F)%nat
  ∧ (length (issues (compareOver F A B)) = length F
     ↔ ∀ f, f ∈ F → differs A B f = true)
  ∧ (length (issues (compareEvents A B)) ≤ 9)%nat.
Proof.
  rewrite length_issues_compareOver.
  split; [apply List.filter_length_le|].
  split; [apply filter_full_iff|].
  unfold compareEvents. rewrite length_issues_compareOver.
  apply (List.filter_length_le (differs A B) DRIFT_FIELDS).
Qed.

Lemma differs_self (A : Record) (f : string) : differs A A f = holdsNaN A f.
Proof.
  unfold differs, holdsNaN. destruct (A !! f) as [v|]; [|reflexivity].
  rewrite strictEqualsValue_self. apply negb_involutive.
Qed.

Lemma expectedIssues_self (A : Record) (f : string) :
  Forall (λ i, type i = changed ∧ from i = to i
               ∧ ∃ n, from i = Some (VNum n) ∧ PrimFloat.is_nan n = true)
    (expectedIssues A A f).
Proof.
  unfold expectedIssues. destruct (A !! f) as [v|]; [|constructor].
  rewrite strictEqualsValue_self.
  destruct v as [|b|n|s]; simpl; try constructor.
  destruct (PrimFloat.is_nan n) eqn:E; simpl; repeat constructor.
  exists n. split; [reflexivity|exact E].
Qed.

(** X8: a record compared with itself shows drift exactly at the tracked
    fields that hold NaN, each as a [changed] issue from NaN to NaN; a record
    without NaN, such as any decoded JSON object, shows none and level
    Low. *)
Theorem compareOver_self (F : list string) (A : Record) :
  map field (issues (compareOver F A A)) = List.filter (holdsNaN A) F
  ∧ Forall (λ i, type i = changed ∧ from i = to i
                 ∧ ∃ n, from i = Some (VNum n) ∧ PrimFloat.is_nan n = true)
      (issues (compareOver F A A))
  ∧ ((∀ f, f ∈ F → holdsNaN A f = false) ↔
     compareOver F A A = {| issues := []; driftLevel := Low |}).
Proof.
  assert (Hf : map field (issues (compareOver F A A))
               = List.filter (holdsNaN A) F).
  { rewrite fields_compareOver. apply List.filter_ext. apply differs_self. }
  split; [exact Hf|]. split.
  - rewrite issues_compareOver.
    induction F as [|f F IH]; simpl; [constructor|].
    apply Forall_app. split; [apply expectedIssues_self|].
    apply IH. rewrite fields_compareOver.
    apply List.filter_ext. apply differs_self.
  - rewrite <- filter_nil_iff, <- Hf. split.
    + intros Hnil. apply map_eq_nil in Hnil.
      unfold compareOver in *. simpl in *. rewrite Hnil. reflexivity.
    + intros ->. reflexivity.
Qed.

Lemma fieldsOfType_expected (A B : Record) (k : IssueType) (f : string) :
  fieldsOfType k (expectedIssues A B f)
  = if fieldHasType A B k f then [f] else [].
Proof.
  unfold fieldsOfType, expectedIssues, fieldHasType.
  destruct (A !! f) as [a|], (B !! f) as [b|];
    try destruct (strictEqualsValue a b); destruct k; reflexivity.
Qed.

Lemma fieldsOfType_app (k : IssueType) (l l' : list Issue) :
  fieldsOfType k (l ++ l') = fieldsOfType k l ++ fieldsOfType k l'.
Proof. unfold fieldsOfType. rewrite List.filter_app, map_app. reflexivity. Qed.

(** X9: the three groups that [renderDetails] lists are a rearrangement of
    the fields of the issues, and for a report of the comparator each group
    is, in tracked order, the fields of its pattern: Removed the fields only
    the first record has, Added the fields only the second has, Changed the
    fields both have with values that are not strictly equal. *)
Theorem fieldsOfType_groups (F : list string) (A B : Record) :
  (∀ l : list Issue,
     fieldsOfType added l ++ fieldsOfType removed l ++ fieldsOfType changed l
     ≡ₚ map field l)
  ∧ (∀ k : IssueType,
       fieldsOfType k (issues (compareOver F A B))
       = List.filter (fieldHasType A B k) F)
  ∧ (∀ f : string,
       fieldHasType A B removed f
       = hasOwnProperty A f && negb (hasOwnProperty B f))
  ∧ (∀ f : string,
       fieldHasType A B added f
       = negb (hasOwnProperty A f) && hasOwnProperty B f)
  ∧ (∀ f : string,
       fieldHasType A B changed f
       = hasOwnProperty A f && hasOwnProperty B f
         && negb (strictEquals (A !! f) (B !! f))).
Proof.
  split; [|split; [|split; [|split]]].
  - apply fieldsOfType_partition.
  - intros k. rewrite issues_compareOver.
    induction F as [|f F IH]; simpl; [reflexivity|].
    rewrite fieldsOfType_app, IH, fieldsOfType_expected.
    destruct (fieldHasType A B k f); reflexivity.
  - intros f. rewrite !hasOwnProperty_lookup. unfold fieldHasType.
    destruct (A !! f), (B !! f); reflexivity.
  - intros f. rewrite !hasOwnProperty_lookup. unfold fieldHasType.
    destruct (A !! f), (B !! f); reflexivity.
  - intros f. rewrite !hasOwnProperty_lookup. unfold fieldHasType.
    destruct (A !! f), (B !! f); reflexivity.
Qed.

(** X10: the level never falls when the number of issues grows: of two
    reports, the one with at least as many issues has at least as high a
    level. *)
Theorem driftLevel_monotone (F F' : list string) (A B A' B' : Record) :
  (length (issues (compareOver F A B))
   ≤ length (issues (compareOver F' A' B')))%nat →
  (levelRank (driftLevel (compareOver F A B))
   ≤ levelRank (driftLevel (compareOver F' A' B')))%nat.
Proof.
  unfold compareOver. simpl. unfold levelOfCount.
  set (n := length (fold_left (driftCallback A B) F [])).
  set (m := length (fold_left (driftCallback A' B') F' [])).
  intros Hle.
  destruct (Nat.leb_spec 2 n), (Nat.leb_spec n 4), (Nat.ltb_spec 4 n),
    (Nat.leb_spec 2 m), (Nat.leb_spec m 4), (Nat.ltb_spec 4 m);
    simpl; lia.
Qed.
End MoreProperties.

(** ** Properties of the details *)

Lemma existsb_field (p : string → bool) (l : list Issue) :
  existsb (λ i, p (field i)) l = existsb p (map field l).
Proof. induction l as [|i l IH]; simpl; [reflexivity|]. rewrite IH. reflexivity. Qed.

Lemma existsb_filter {X : Type} (d p : X → bool) (l : list X) :
  existsb p (List.filter d l) = existsb (λ x, d x && p x) l.
Proof.
  induction l as [|x l IH]; simpl; [reflexivity|].
  destruct (d x); simpl; rewrite IH; reflexivity.
Qed.

Lemma existsb_and_eqb (d : string → bool) (x : string) (l : list string) :
  existsb (λ f, d f && String.eqb f x) l
  = d x && existsb (λ f, String.eqb f x) l.
Proof.
  induction l as [|f l IH]; simpl; [symmetry; apply andb_false_r|].
  rewrite IH. destruct (String.eqb_spec f x) as [->|_].
  - destruct (d x); reflexivity.
  - rewrite andb_false_r. reflexivity.
Qed.

Lemma existsb_orb {X : Type} (p q : X → bool) (l : list X) :
  existsb (λ x, p x || q x) l = existsb p l || existsb q l.
Proof.
  induction l as [|x l IH]; simpl; [reflexivity|].
  rewrite IH. destruct (p x), (q x), (existsb p l), (existsb q l); reflexivity.
Qed.

(** The targeting line is the sentence about untouched core fields exactly
    when no bullet is listed. *)
Lemma targetingLine_no_bullets (b1 b2 b3 b4 b5 : bool) :
  let bullets :=
    (if b1 then ["partner classification"] else [])
    ++ (if b2 then ["tier-based multipliers"] else [])
    ++ (if b3 then ["category-level targeting"] else [])
    ++ (if b4 then ["promo eligibility & campaign mapping"] else [])
    ++ (if b5 then ["loyalty score & segment assignment"] else []) in
  (if (0 <? length bullets)%nat
   then "Drift is likely to affect: " +:+ "<strong>" +:+ join ", " bullets
          +:+ "</strong>."
   else "Drift is present but does not touch core targeting or scoring fields in this toy example.")
  = "Drift is present but does not touch core targeting or scoring fields in this toy example."
  ↔ b1 = false ∧ b2 = false ∧ b3 = false ∧ b4 = false ∧ b5 = false.
Proof.
  destruct b1, b2, b3, b4, b5; cbv zeta; split;
    first [ intros (? & ? & ? & ? & ?); discriminate
          | intros _; repeat split; reflexivity
          | intros Heq; vm_compute in Heq; discriminate Heq ].
Qed.

Lemma push_lines (g : Issue → string) (l : list Issue) (acc : list string) :
  fold_left (λ lines issue, lines ++ [g issue]) l acc = acc ++ map g l.
Proof.
  revert acc. induction l as [|i l IH]; intros acc; simpl.
  - symmetry. apply app_nil_r.
  - rewrite IH, <- app_assoc. reflexivity.
Qed.

Section DetailsProperties.
Context `{!NumberToString}.

Lemma touched_compareEvents (A B : Record) (p : string → bool) :
  existsb (λ i, p (field i)) (issues (compareEvents A B))
  = existsb (λ f, differs A B f && p f) DRIFT_FIELDS.
Proof.
  rewrite existsb_field. unfold compareEvents.
  rewrite fields_compareOver. apply existsb_filter.
Qed.

Lemma touched_field (A B : Record) (x : string) :
  x ∈ DRIFT_FIELDS →
  existsb (λ i, String.eqb (field i) x) (issues (compareEvents A B))
  = differs A B x.
Proof.
  intros Hx.
  rewrite (touched_compareEvents A B (λ g, String.eqb g x)).
  rewrite existsb_and_eqb.
  assert (Hin : existsb (λ f, String.eqb f x) DRIFT_FIELDS = true).
  { apply existsb_exists. exists x.
    split; [apply list_elem_of_In; exact Hx|apply String.eqb_refl]. }
  rewrite Hin. apply andb_true_r.
Qed.

Lemma bulletsOf_compareEvents (A B : Record) :
  bulletsOf (issues (compareEvents A B))
  = (if differs A B "partnerId" then ["partner classification"] else [])
    ++ (if differs A B "tier" then ["tier-based multipliers"] else [])
    ++ (if differs A B "category" || differs A B "segment"
        then ["category-level targeting"] else [])
    ++ (if differs A B "promoCode" || differs A B "campaignId"
        then ["promo eligibility & campaign mapping"] else [])
    ++ (if differs A B "score"
        then ["loyalty score & segment assignment"] else []).
Proof.
  assert (Hin : ∀ x, bool_decide (x ∈ DRIFT_FIELDS) = true → x ∈ DRIFT_FIELDS)
    by (intros x; apply bool_decide_eq_true).
  unfold bulletsOf.
  rewrite !existsb_orb.
  rewrite !touched_field by (apply Hin; vm_compute; reflexivity).
  destruct (differs A B "partnerId"), (differs A B "tier"),
    (differs A B "category" || differs A B "segment"),
    (differs A B "promoCode" || differs A B "campaignId"),
    (differs A B "score"); reflexivity.
Qed.

(** X11: in the details of a report of the comparator, a bullet is listed
    exactly when one of its fields differs (partnerId; tier; segment or
    category; promoCode or campaignId; score), and the targeting line says
    that drift does not touch core fields exactly when some tracked field
    differs and every one that does is spend or currency. *)
Theorem targetingLine_compareEvents (A B : Record) :
  bulletsOf (issues (compareEvents A B))
  = (if differs A B "partnerId" then ["partner classification"] else [])
    ++ (if differs A B "tier" then ["tier-based multipliers"] else [])
    ++ (if differs A B "category" || differs A B "segment"
        then ["category-level targeting"] else [])
    ++ (if differs A B "promoCode" || differs A B "campaignId"
        then ["promo eligibility & campaign mapping"] else [])
    ++ (if differs A B "score"
        then ["loyalty score & segment assignment"] else [])
  ∧ (targetingLine (renderDetails (Some (compareEvents A B)))
     = "Drift is present but does not touch core targeting or scoring fields in this toy example."
     ↔ (∃ f, f ∈ DRIFT_FIELDS ∧ differs A B f = true)
       ∧ ∀ f, f ∈ DRIFT_FIELDS → differs A B f = true →
              f = "spend" ∨ f = "currency").
Proof.
  split; [apply bulletsOf_compareEvents|].
  assert (Hlen : length (issues (compareEvents A B))
                 = length (List.filter (differs A B) DRIFT_FIELDS))
    by apply length_issues_compareOver.
  assert (Hnil : List.filter (differs A B) DRIFT_FIELDS = []
                 ↔ ∀ f, f ∈ DRIFT_FIELDS → differs A B f = false)
    by apply filter_nil_iff.
  unfold renderDetails.
  destruct (compareEvents A B) as [items lvl] eqn:Er.
  assert (Hb := bulletsOf_compareEvents A B). rewrite Er in Hb.
  cbn [issues] in Hb, Hlen.
  destruct (Nat.eqb_spec (length items) 0) as [E0|E0]; simpl.
  - split; [discriminate|].
    intros [(f & Hf & Hd) _]. rewrite E0 in Hlen. symmetry in Hlen.
    apply length_zero_iff_nil in Hlen.
    destruct Hnil as [Hnil _]. rewrite (Hnil Hlen f Hf) in Hd. discriminate.
  - assert (Hsome : ∃ f, f ∈ DRIFT_FIELDS ∧ differs A B f = true).
    { destruct (List.filter (differs A B) DRIFT_FIELDS) as [|f l] eqn:Ef;
        [exfalso; apply E0; exact Hlen|].
      assert (Hin : In f (List.filter (differs A B) DRIFT_FIELDS))
        by (rewrite Ef; left; reflexivity).
      apply filter_In in Hin as [Hin Hd]. exists f.
      split; [apply list_elem_of_In; exact Hin|exact Hd]. }
    unfold targetingLineOf. rewrite Hb. clear Hb Hlen Hnil Er E0.
    rewrite (targetingLine_no_bullets (differs A B "partnerId")
               (differs A B "tier")
               (differs A B "category" || differs A B "segment")
               (differs A B "promoCode" || differs A B "campaignId")
               (differs A B "score")).
    rewrite !orb_false_iff.
    split.
    + intros (D1 & D2 & [D3 D4] & [D5 D6] & D7).
      split; [exact Hsome|]. intros f Hf Hd.
      unfold DRIFT_FIELDS in Hf.
      repeat (apply elem_of_cons in Hf as [->|Hf]);
        try (apply elem_of_nil in Hf; destruct Hf);
        try (left; reflexivity); try (right; reflexivity); congruence.
    + intros [_ Hall].
      assert (Hno : ∀ f, bool_decide (f ∈ DRIFT_FIELDS) = true →
                         f ≠ "spend" → f ≠ "currency" →
                         differs A B f = false).
      { intros f Hf N1 N2. apply bool_decide_eq_true in Hf.
        destruct (differs A B f) eqn:Hd; [|reflexivity].
        destruct (Hall f Hf Hd); contradiction. }
      repeat split; apply Hno; (reflexivity || discriminate).
Qed.

(** X12: the raw output of a report with issues is, joined by newlines, the
    heading, one line with the message of each issue in report order, an
    empty line, the level, the issue count and the impact sentence of the
    level. *)
Theorem rawOutput_lines (i0 : Issue) (rest : list Issue) (lvl : DriftLevel) :
  let items := i0 :: rest in
  rawOutput (renderDetails (Some {| issues := items; driftLevel := lvl |}))
  = join newline
      (["Drift Detected:"] ++ map (λ i, "- " +:+ message i) items
       ++ [ EmptyString;
            "Drift Level: " +:+ levelName lvl;
            "Issue Count: " +:+ pretty (length items);
            newline +:+ match lvl with
                        | High => "Impact: High — expect targeting, promo eligibility, or scoring to behave differently between these versions."
                        | Medium => "Impact: Medium — some targeting or promo behavior may shift; review before relying on historical results."
                        | Low => "Impact: Low — small or no meaningful changes in tracked fields."
                        end ]).
Proof.
  intros items. subst items. unfold renderDetails.
  change (length (i0 :: rest) =? 0)%nat with false.
  cbn [rawOutput]. unfold rawOutputOf. rewrite push_lines.
  destruct lvl; rewrite <- !app_assoc; reflexivity.
Qed.
(** X13: the summary and the details never disagree on whether there is
    drift: for any report, the badge is the "No drift detected" one, the impact
    line is the one about no field-level changes, the fields line is the one
    about no added, removed or changed fields, and the targeting line is the
    one about staying aligned, each exactly when the report has no issue. *)
Theorem no_drift_panes_agree (r : DriftReport Issue) :
  (renderSummary (Some (Computed r))
   = BadgeOk "No drift detected for tracked fields."
   ↔ issues r = [])
  ∧ (impactLine (renderDetails (Some r))
     = "Drift impact: <strong>Low</strong>. No field-level changes detected in tracked fields."
     ↔ issues r = [])
  ∧ (fieldsLine (renderDetails (Some r))
     = "No added, removed, or changed fields in the tracked set."
     ↔ issues r = [])
  ∧ (targetingLine (renderDetails (Some r))
     = "Targeting, promotions, and scores are likely to stay aligned across versions for tracked fields."
     ↔ issues r = []).
Proof.
  destruct r as [[|i l] lvl]; cbn [issues].
  - repeat split; reflexivity.
  - unfold renderSummary, renderDetails.
    change (issueCount (Computed {| issues := i :: l; driftLevel := lvl |}))
      with (S (length l)).
    change (length (i :: l) =? 0)%nat with false.
    change (S (length l) =? 0)%nat with false.
    cbn [impactLine fieldsLine targetingLine].
    split; [split; discriminate|].
    split; [split; [destruct lvl; intros Heq; vm_compute in Heq|]; discriminate|].
    split; [|split; [|discriminate]].
    + split; [|discriminate]. unfold fieldsLineOf.
      pose proof (Permutation_length (fieldsOfType_partition (i :: l))) as Hlen.
      rewrite !length_app, length_map in Hlen. simpl in Hlen.
      destruct (fieldsOfType added (i :: l)) as [|a la];
        destruct (fieldsOfType removed (i :: l)) as [|b lb];
        destruct (fieldsOfType changed (i :: l)) as [|c lc];
        simpl in Hlen; try lia;
        intros Heq; vm_compute in Heq; discriminate Heq.
    + unfold targetingLineOf.
      destruct (0 <? length (bulletsOf (i :: l)))%nat;
        intros Heq; vm_compute in Heq; discriminate Heq.
Qed.

Lemma expectedIssues_other_field (A B : Record) (f g : string) :
  List.filter (λ i, negb (String.eqb (field i) f)) (expectedIssues A B g)
  = if String.eqb g f then [] else expectedIssues A B g.
Proof.
  unfold expectedIssues.
  destruct (A !! g) as [a|], (B !! g) as [b|];
    try destruct (strictEqualsValue a b); simpl;
    destruct (String.eqb g f); reflexivity.
Qed.

(** X14: copying the first record's value of a field into the second record
    removes the issue of that field and leaves every other issue, with its
    message, as it was, provided the value is not NaN. *)
Theorem compareOver_copy_value (F : list string) (A B : Record)
    (f : string) (a : value) :
  A !! f = Some a → isNaNValue a = false →
  issues (compareOver F A (<[f := a]> B))
  = List.filter (λ i, negb (String.eqb (field i) f))
      (issues (compareOver F A B)).
Proof.
  intros HA Hnan. rewrite !issues_compareOver.
  induction F as [|g F IH]; simpl; [reflexivity|].
  rewrite List.filter_app, <- IH, expectedIssues_other_field.
  f_equal. destruct (String.eqb_spec g f) as [->|Hne].
  - unfold expectedIssues. rewrite HA, lookup_insert_eq.
    rewrite strictEqualsValue_self, Hnan. reflexivity.
  - unfold expectedIssues. rewrite lookup_insert_ne by congruence.
    reflexivity.
Qed.
End DetailsProperties.

(** ** Instances of the conditional statements *)

Lemma clickCheckDrift_empty_text_witness :
  @clickCheckDrift integerNumeral sampleParse (samplePage EmptyString "{")
  = resetUI
      (applyEffect (samplePage EmptyString "{")
         (SetStatus "Please select a scenario first; events are empty.")).
Proof.
  apply (@clickCheckDrift_empty_text integerNumeral sampleParse).
  left. reflexivity.
Defined.

Lemma clickCheckDrift_parse_failure_page_witness :
  impactLine
    (details (@clickCheckDrift integerNumeral sampleParse (samplePage "{" "{}")))
  = impactLine (renderDetails None).
Proof.
  apply (@clickCheckDrift_parse_failure_page integerNumeral sampleParse
           (samplePage "{" "{}")).
  - discriminate.
  - discriminate.
  - left. reflexivity.
Defined.

Lemma driftLevel_monotone_witness :
  (levelRank (driftLevel (@compareOver integerNumeral DRIFT_FIELDS ∅ ∅))
   ≤ levelRank
       (driftLevel
          (@compareOver integerNumeral DRIFT_FIELDS scenario1_v1 scenario1_v2)))%nat.
Proof.
  apply (@driftLevel_monotone integerNumeral).
  vm_compute. lia.
Defined.

Lemma compareOver_copy_value_witness :
  issues
    (@compareOver integerNumeral DRIFT_FIELDS scenario1_v1
       (<["tier" := VStr "Gold"]> scenario1_v2))
  = List.filter (λ i, negb (String.eqb (field i) "tier"))
      (issues (@compareOver integerNumeral DRIFT_FIELDS scenario1_v1 scenario1_v2)).
Proof.
  apply (@compareOver_copy_value integerNumeral).
  - vm_compute. reflexivity.
  - reflexivity.
Defined.

(** ** The comparator on the heap: effects and errors *)

Lemma DRIFT_FIELDS_no_array_key :
  Forall (λ f, isArrayKey f = false) DRIFT_FIELDS.
Proof. repeat constructor. Qed.

Lemma readReport_frame (h h' : Heap) (report : loc) (r : DriftReport Issue) :
  (∀ l, l ∈ dom h → h' !! l = h !! l) →
  readReport h report = Some r → readReport h' report = Some r.
Proof.
  unfold readReport. intros Hframe Hr.
  destruct (h !! report) as [[| | |i lvl]|] eqn:E1; try discriminate.
  destruct (h !! i) as [[| |a|]|] eqn:E2; try discriminate.
  rewrite (Hframe report), E1 by (apply elem_of_dom; eauto).
  rewrite (Hframe i), E2 by (apply elem_of_dom; eauto).
  exact Hr.
Qed.

Section HeapProperties.
Context `{!NumberToString}.

(** One run of the callback on the heap leaves in the array what the pure
    callback gives, and touches nothing else. *)
Lemma driftCallbackJS_ok (h : Heap) (l1 l2 i : loc) (A B : Record)
    (acc : list Issue) (f : string) :
  h !! l1 = Some (ObjRecord A) → h !! l2 = Some (ObjRecord B) →
  h !! i = Some (ObjIssues acc) →
  driftCallbackJS (ArgRef l1) (ArgRef l2) i f h
  = Ok tt (<[i := ObjIssues (driftCallback A B acc f)]> h).
Proof.
  intros H1 H2 Hi.
  unfold driftCallbackJS, driftCallback, bind, hasOwnPropertyCall,
    readProperty, push, ret.
  rewrite H1, H2.
  destruct (hasOwnProperty A f), (hasOwnProperty B f); simpl;
    rewrite ?H1, ?H2, ?Hi; try reflexivity;
    try (rewrite insert_id by exact Hi; reflexivity).
  destruct (strictEquals (getProperty A f) (getProperty B f)); simpl;
    rewrite ?Hi; [rewrite insert_id by exact Hi|]; reflexivity.
Qed.

Lemma forEach_ok (F : list string) (h : Heap) (l1 l2 i : loc) (A B : Record)
    (acc : list Issue) :
  h !! l1 = Some (ObjRecord A) → h !! l2 = Some (ObjRecord B) →
  h !! i = Some (ObjIssues acc) →
  forEach F (driftCallbackJS (ArgRef l1) (ArgRef l2) i) h
  = Ok tt (<[i := ObjIssues (fold_left (driftCallback A B) F acc)]> h).
Proof.
  revert h acc. induction F as [|f F IH]; intros h acc H1 H2 Hi; simpl.
  - unfold ret. rewrite insert_id by exact Hi. reflexivity.
  - assert (N1 : i ≠ l1) by (intros ->; congruence).
    assert (N2 : i ≠ l2) by (intros ->; congruence).
    unfold bind. rewrite (driftCallbackJS_ok h l1 l2 i A B acc f H1 H2 Hi).
    rewrite (IH _ (driftCallback A B acc f)).
    + rewrite insert_insert_eq. reflexivity.
    + rewrite lookup_insert_ne by exact N1. exact H1.
    + rewrite lookup_insert_ne by exact N2. exact H2.
    + apply lookup_insert_eq.
Qed.

(** The call on two records: what it returns and what it leaves. *)
Lemma compareEventsJS_ok (h : Heap) (table l1 l2 : loc) (F : list string)
    (A B : Record) :
  h !! table = Some (ObjStrings F) →
  h !! l1 = Some (ObjRecord A) → h !! l2 = Some (ObjRecord B) →
  ∃ (report : loc) (h' : Heap),
    compareEventsJS table (ArgRef l1) (ArgRef l2) h = Ok report h'
    ∧ (report ∉ dom h)
    ∧ (∀ l, l ∈ dom h → h' !! l = h !! l)
    ∧ readReport h' report = Some (compareOver F A B).
Proof.
  intros Ht H1 H2.
  set (i := fresh (dom h)).
  assert (Hi : i ∉ dom h) by apply is_fresh.
  assert (Ni : ∀ l o, h !! l = Some o → i ≠ l).
  { intros l o Hl ->. apply Hi. apply elem_of_dom. eauto. }
  set (h1 := <[i := ObjIssues []]> h).
  set (items := fold_left (driftCallback A B) F []).
  set (h2 := <[i := ObjIssues items]> h).
  set (report := fresh (dom h2)).
  assert (Hr : report ∉ dom h2) by apply is_fresh.
  assert (Hsub : ∀ l, l ∈ dom h → l ∈ dom h2).
  { intros l Hl. subst h2. rewrite dom_insert. set_solver. }
  assert (Nr : report ≠ i).
  { intros E. apply Hr. rewrite E. subst h2. rewrite dom_insert. set_solver. }
  exists report, (<[report := ObjReport i (levelOfCount (length items))]> h2).
  split; [|split; [|split]].
  - unfold compareEventsJS, bind, alloc, readStrings, lengthOf.
    fold i. fold h1.
    assert (Ht1 : h1 !! table = Some (ObjStrings F)).
    { subst h1. rewrite lookup_insert_ne by (eapply Ni; exact Ht). exact Ht. }
    rewrite Ht1.
    rewrite (forEach_ok F h1 l1 l2 i A B []).
    + subst h1. rewrite insert_insert_eq. fold items. fold h2.
      assert (Hi2 : h2 !! i = Some (ObjIssues items))
        by (subst h2; apply lookup_insert_eq).
      rewrite Hi2. reflexivity.
    + subst h1. rewrite lookup_insert_ne by (eapply Ni; exact H1). exact H1.
    + subst h1. rewrite lookup_insert_ne by (eapply Ni; exact H2). exact H2.
    + subst h1. apply lookup_insert_eq.
  - intros Hin. apply Hr, Hsub, Hin.
  - intros l Hl.
    assert (l ≠ report) by (intros ->; apply Hr, Hsub, Hl).
    assert (l ≠ i) by (intros ->; contradiction).
    subst h2. rewrite !lookup_insert_ne by congruence. reflexivity.
  - unfold readReport. rewrite lookup_insert_eq.
    rewrite lookup_insert_ne by exact Nr.
    subst h2. rewrite lookup_insert_eq. reflexivity.
Qed.

(** C6: the call has no effect on anything that exists and shares no state
    between calls.  On a heap that holds the field table and two records, it
    returns a report at a new address and leaves every object that was there
    (the records, the table, earlier reports) as it was; the report it
    denotes is determined by the table and by what the records hold at the
    tracked fields, so a call with structurally identical arguments, in any
    heap, denotes the same report (issues, order, kinds, values, messages
    and level); calling again on the same arguments gives a second report
    object equal to the first, which is intact; and the message of every
    issue is [issueMessage] of its field, kind, [from] and [to]. *)
Theorem compareEventsJS_deterministic (h : Heap) (table l1 l2 : loc)
    (F : list string) (A B : Record) :
  h !! table = Some (ObjStrings F) →
  h !! l1 = Some (ObjRecord A) → h !! l2 = Some (ObjRecord B) →
  ∃ (report : loc) (h' : Heap),
    compareEventsJS table (ArgRef l1) (ArgRef l2) h = Ok report h'
    ∧ (report ∉ dom h)
    ∧ (∀ l, l ∈ dom h → h' !! l = h !! l)
    ∧ readReport h' report = Some (compareOver F A B)
    ∧ (∀ (g : Heap) (table' m1 m2 : loc) (A' B' : Record),
         g !! table' = Some (ObjStrings F) →
         g !! m1 = Some (ObjRecord A') → g !! m2 = Some (ObjRecord B') →
         (∀ f, f ∈ F → A' !! f = A !! f ∧ B' !! f = B !! f) →
         ∃ (report' : loc) (g' : Heap),
           compareEventsJS table' (ArgRef m1) (ArgRef m2) g = Ok report' g'
           ∧ readReport g' report' = readReport h' report)
    ∧ (∃ (report2 : loc) (h'' : Heap),
         compareEventsJS table (ArgRef l1) (ArgRef l2) h' = Ok report2 h''
         ∧ report2 ≠ report
         ∧ readReport h'' report2 = readReport h' report
         ∧ readReport h'' report = readReport h' report)
    ∧ Forall (λ i, message i = issueMessage (field i) (type i) (from i) (to i))
        (issues (compareOver F A B)).
Proof.
  intros Ht H1 H2.
  destruct (compareEventsJS_ok h table l1 l2 F A B Ht H1 H2)
    as (report & h' & Hrun & Hnew & Hframe & Hread).
  exists report, h'.
  split; [exact Hrun|]. split; [exact Hnew|]. split; [exact Hframe|].
  split; [exact Hread|]. split; [|split].
  - intros g table' m1 m2 A' B' Gt G1 G2 Hagree.
    destruct (compareEventsJS_ok g table' m1 m2 F A' B' Gt G1 G2)
      as (report' & g' & Grun & _ & _ & Gread).
    exists report', g'. split; [exact Grun|].
    rewrite Gread, Hread. f_equal. apply compareOver_agree. exact Hagree.
  - assert (Hin : ∀ l o, h !! l = Some o → h' !! l = Some o).
    { intros l o Hl. rewrite Hframe; [exact Hl|]. apply elem_of_dom. eauto. }
    destruct (compareEventsJS_ok h' table l1 l2 F A B
                (Hin _ _ Ht) (Hin _ _ H1) (Hin _ _ H2))
      as (report2 & h'' & Hrun2 & Hnew2 & Hframe2 & Hread2).
    exists report2, h''. split; [exact Hrun2|].
    split; [|split].
    + intros ->. apply Hnew2. apply elem_of_dom.
      unfold readReport in Hread.
      destruct (h' !! report); [eauto|discriminate].
    + rewrite Hread2, Hread. reflexivity.
    + rewrite Hread. apply (readReport_frame h' h'' _ _ Hframe2 Hread).
  - apply compareOver_message.
Qed.

(** C8: on any heap that holds a field table and two records the call
    raises no error: it returns a report, and the report is valid (its level
    is the one its issue count calls for, every issue is well formed, names a
    field of the table and carries the message of its attributes) and
    complete (its issues are, in order, the fields of the table on which the
    records differ).  A field that a record lacks is read as absent: the
    [from] and [to] of an issue are what the two records hold at its field.
    Only a null argument makes the call throw, when the table is not
    empty. *)
Theorem compareEventsJS_total (h : Heap) (table l1 l2 : loc)
    (F : list string) (A B : Record) :
  h !! table = Some (ObjStrings F) →
  h !! l1 = Some (ObjRecord A) → h !! l2 = Some (ObjRecord B) →
  (∃ (report : loc) (h' : Heap) (r : DriftReport Issue),
     compareEventsJS table (ArgRef l1) (ArgRef l2) h = Ok report h'
     ∧ readReport h' report = Some r
     ∧ validReport F r
     ∧ map field (issues r) = List.filter (differs A B) F
     ∧ Forall (λ i, from i = A !! field i ∧ to i = B !! field i) (issues r))
  ∧ (F ≠ [] →
     compareEventsJS table ArgNull (ArgRef l2) h = Throw TypeError
     ∧ compareEventsJS table (ArgRef l1) ArgNull h = Throw TypeError
     ∧ compareEventsJS table ArgNull ArgNull h = Throw TypeError).
Proof.
  intros Ht H1 H2. split.
  - destruct (compareEventsJS_ok h table l1 l2 F A B Ht H1 H2)
      as (report & h' & Hrun & _ & _ & Hread).
    exists report, h', (compareOver F A B).
    pose proof (compareOver_wellFormed F A B) as Hwf.
    split; [exact Hrun|]. split; [exact Hread|].
    split; [|split].
    + unfold validReport. split; [reflexivity|]. split; [|split].
      * eapply Forall_impl; [exact Hwf|]. intros i Hi. apply Hi.
      * eapply Forall_impl; [exact Hwf|]. intros i Hi. apply Hi.
      * apply compareOver_message.
    + apply fields_compareOver.
    + eapply Forall_impl; [exact Hwf|]. intros i Hi. split; apply Hi.
  - intros Hne. destruct F as [|f F]; [contradiction|].
    assert (Hi : fresh (dom h) ∉ dom h) by apply is_fresh.
    assert (Ht1 : (<[fresh (dom h) := ObjIssues []]> h) !! table
                  = Some (ObjStrings (f :: F))).
    { rewrite lookup_insert_ne; [exact Ht|].
      intros E. apply Hi. rewrite E. apply elem_of_dom. eauto. }
    assert (H21 : (<[fresh (dom h) := ObjIssues []]> h) !! l1
                  = Some (ObjRecord A)).
    { rewrite lookup_insert_ne; [exact H1|].
      intros E. apply Hi. rewrite E. apply elem_of_dom. eauto. }
    unfold compareEventsJS, bind, alloc, readStrings.
    rewrite Ht1. simpl.
    unfold bind, driftCallbackJS, bind, hasOwnPropertyCall.
    rewrite H21. repeat split.
Qed.
End HeapProperties.

Lemma compareEventsJS_deterministic_witness :
  ∃ (report : loc) (h' : Heap),
    @compareEventsJS integerNumeral 1%positive
      (ArgRef 2%positive) (ArgRef 3%positive) sampleHeap
    = Ok report h'
    ∧ readReport h' report
      = Some (@compareOver integerNumeral DRIFT_FIELDS scenario1_v1 scenario1_v2).
Proof.
  destruct (@compareEventsJS_deterministic integerNumeral sampleHeap
              1%positive 2%positive 3%positive DRIFT_FIELDS
              scenario1_v1 scenario1_v2)
    as (report & h' & Hrun & _ & _ & Hread & _).
  - reflexivity.
  - reflexivity.
  - reflexivity.
  - exists report, h'. split; [exact Hrun|exact Hread].
Defined.

Lemma compareEventsJS_total_witness :
  @compareEventsJS integerNumeral 1%positive ArgNull (ArgRef 3%positive)
    sampleHeap
  = Throw TypeError.
Proof.
  apply (@compareEventsJS_total integerNumeral sampleHeap
           1%positive 2%positive 3%positive DRIFT_FIELDS
           scenario1_v1 scenario1_v2).
  - reflexivity.
  - reflexivity.
  - reflexivity.
  - discriminate.
Defined.

(** The call on the heap, run: a new report object whose issues are those of
    Scenario 1. *)
Example compareEventsJS_scenario1 :
  match @compareEventsJS integerNumeral 1%positive
          (ArgRef 2%positive) (ArgRef 3%positive) sampleHeap with
  | Ok report h' =>
      option_map (λ r, (map field (issues r), driftLevel r))
        (readReport h' report)
  | _ => None
  end
  = Some (["partnerId"; "tier"; "promoCode"; "score"; "category"], High).
Proof. vm_compute. reflexivity. Qed.

(** A click on a text that parses to null. *)
Example click_on_null :
  @checkDriftClick integerNumeral sampleParse "null" "{}"
  = [ CallCompareEvents (JScalar VNull) (JObject ∅); Uncaught TypeError ].
Proof. vm_compute. reflexivity. Qed.
